(** * Wallet intercom broker: NOTIFY / HEARTBEAT ingestion and the
      wallet/address endpoint

    Shallow embedding of
    - [src/services/intercom/intercom-broker.ts]: [parseFromIntString]
      and the two message handlers registered by [setup];
    - [src/server/api/endpoints/wallet/address.ts]: the endpoint handler;
    - the reply callback of [getNewAddress] of the broker;
    - [convertRedisOptions] and the media proxy fields of [loadConfig]
      of the configuration loader.

    Conventions of the embedding.
    - A JavaScript string is a [string]; [substring] clamps its
      arguments the way [String.prototype.substring] does.
    - A JavaScript number that holds an amount is an IEEE-754 binary64
      value ([spec_float] at precision 53, [emax] 1024); confirmation
      counts, block heights and times are integers ([Z]).
    - A table is the list of its rows in insertion order.  A [getOne]
      returns the first matching row, an [update ... where] rewrites
      every matching row, an [insert] appends.
    - The handlers are [async] functions that run no database
      transaction: when a statement throws, the writes made before it
      stay.  A handler is therefore a function from the database to a
      database and an outcome (a reply, or the exception thrown).
    - A handler receives [rxData] and starts with [JSON.parse]; here it
      receives the text and the parsed message.
    - The two writes of the HEARTBEAT handler are not awaited; they are
      taken to be done when the next message is handled.

    Three places of the NOTIFY handler are read as follows.  Line 209
    reads [tx.complete] although [tx] is the [const] declared at line
    253 of the same block: evaluating it throws, and it is evaluated
    exactly when no job row exists ([!jobe && ...]).  Line 221 assigns
    to the [const] [jobe]; it is behind line 209 and is never reached.
    Line 358 ends a property with [;]; it is read as [balance: nbal]. *)

From Stdlib Require Import ZArith String Ascii List Bool Lia QArith.
From Stdlib Require Import SpecFloat.
Import ListNotations.

Set Implicit Arguments.

(* ================================================================= *)
(** * Part I: definitions                                             *)
(* ================================================================= *)

(** ** JavaScript strings *)

Module JsString.

Local Open Scope string_scope.

Definition len (s : string) : Z := Z.of_nat (String.length s).

(** [clamp n x]: an index argument of [substring] is moved into
    [0 .. n]. *)
Definition clamp (n x : Z) : Z := Z.max 0 (Z.min x n).

(** [s.substring(a, b)]: both arguments clamped to [0 .. s.length],
    swapped when the first is the larger. *)
Definition substring (s : string) (a b : Z) : string :=
  let a' := clamp (len s) a in
  let b' := clamp (len s) b in
  let lo := Z.min a' b' in
  let hi := Z.max a' b' in
  String.substring (Z.to_nat lo) (Z.to_nat (hi - lo)) s.

(** [n] copies of the character ['0']. *)
Fixpoint zeros (n : nat) : string :=
  match n with
  | O => ""
  | S n' => String "0" (zeros n')
  end.

Definition is_digit (c : ascii) : bool :=
  let n := nat_of_ascii c in (48 <=? n)%nat && (n <=? 57)%nat.

Definition digit_val (c : ascii) : Z := Z.of_nat (nat_of_ascii c) - 48.

(** Value of a string of decimal digits read most significant digit
    first, on top of the value [acc] of the digits already read. *)
Fixpoint decimal_from (acc : Z) (s : string) : Z :=
  match s with
  | "" => acc
  | String c s' => decimal_from (acc * 10 + digit_val c) s'
  end.

Definition decimal (s : string) : Z := decimal_from 0 s.

End JsString.

(** ** [IntercomBroker.parseFromIntString] *)

Module Amount.

Local Open Scope string_scope.

(** One turn of the [for] loop of the [else] branch: the characters of
    [intString] are appended in order, and every turn past its end
    puts a ['0'] in front. *)
Definition pad_step (intString : string) (decimals : string) (i : nat)
  : string :=
  if (Z.of_nat i <=? JsString.len intString - 1)%Z
  then decimals ++ JsString.substring intString (Z.of_nat i) (Z.of_nat i + 1)
  else "0" ++ decimals.

Definition parseFromIntString (intString : string) (precision : Z) : string :=
  let length := JsString.len intString in
  if (length >? precision)%Z then
    let integers := JsString.substring intString 0 (length - precision) in
    let decimals := JsString.substring intString (length - precision) length in
    integers ++ "." ++ decimals
  else
    let integers := "0" in
    let decimals :=
      fold_left (pad_step intString) (seq 0 (Z.to_nat precision)) "" in
    integers ++ "." ++ decimals.

End Amount.

(** ** JavaScript numbers that hold amounts *)

Module JsNumber.

Local Open Scope string_scope.
Local Open Scope Z_scope.

Definition number : Type := spec_float.

Definition prec : Z := 53.
Definition emax : Z := 1024.

Definition zero : number := S754_zero false.

(** [a + b] on numbers. *)
Definition add (a b : number) : number := SFadd prec emax a b.

Definition of_pos (neg : bool) (m : positive) : spec_float :=
  S754_finite neg m 0.

(** The number nearest to [m * 10^e] (ties to even), signed by [neg]. *)
Definition of_decimal (neg : bool) (m e : Z) : number :=
  match m with
  | Zpos p =>
      if 0 <=? e
      then binary_normalize prec emax
             (if neg then - (m * 10 ^ e) else m * 10 ^ e) 0 neg
      else SFdiv prec emax (of_pos neg p)
             (of_pos false (Z.to_pos (10 ^ (- e))))
  | _ => S754_zero neg
  end.

Definition is_space (c : ascii) : bool :=
  match nat_of_ascii c with
  | 9%nat | 10%nat | 11%nat | 12%nat | 13%nat | 32%nat => true
  | _ => false
  end.

Fixpoint skip_spaces (s : string) : string :=
  match s with
  | String c s' => if is_space c then skip_spaces s' else s
  | "" => ""
  end.

(** The longest prefix of digits, and what follows it. *)
Fixpoint span_digits (s : string) : string * string :=
  match s with
  | String c s' =>
      if JsString.is_digit c
      then let (d, r) := span_digits s' in (String c d, r)
      else ("", s)
  | "" => ("", "")
  end.

Definition parse_sign (s : string) : bool * string :=
  match s with
  | String "-" r => (true, r)
  | String "+" r => (false, r)
  | _ => (false, s)
  end.

(** The value of an exponent part at the head of [s], 0 when there is
    none. *)
Definition parse_exponent (s : string) : Z :=
  match s with
  | String c r =>
      if (Ascii.eqb c "e" || Ascii.eqb c "E")%bool then
        let (neg, r') := parse_sign r in
        let (d, _) := span_digits r' in
        match d with
        | "" => 0
        | _ => if neg then - JsString.decimal d else JsString.decimal d
        end
      else 0
  | "" => 0
  end.

(** [parseFloat(s)]: leading white space is skipped, the longest prefix
    that is a decimal literal is read, and [NaN] is returned when there
    is none. *)
Definition parseFloat (s : string) : number :=
  let (neg, r0) := parse_sign (skip_spaces s) in
  if String.prefix "Infinity" r0 then S754_infinity neg else
  let (ip, r1) := span_digits r0 in
  let (fp, r2) :=
    match r1 with
    | String "." r => span_digits r
    | _ => ("", r1)
    end in
  match (ip ++ fp)%string with
  | "" => S754_nan
  | ds => of_decimal neg (JsString.decimal ds)
            (parse_exponent r2 - JsString.len fp)
  end.

(** The rational a finite number is. *)
Definition to_Q (x : number) : option Q :=
  match x with
  | S754_zero _ => Some 0%Q
  | S754_finite s m e =>
      Some (Qmult (inject_Z (if s then Zneg m else Zpos m))
                  (Qpower (2 # 1) e))
  | _ => None
  end.

End JsNumber.

(** ** The tables *)

Module Db.

Import JsNumber.

(** What the code writes into the [processed] column: nothing (the
    column default), the number 1, or the [{ userId, balance }] object
    of the [users] map. *)
Inductive processed_value : Type :=
| ProcessedDefault
| ProcessedOne
| ProcessedEntry (userId balance : string).

(** A row of [user_wallet_tx]. *)
Record WalletTx : Type := mkTx {
  tx_userId : option string;
  tx_txid : string;
  tx_blockhash : string;
  tx_coinType : Z;
  tx_txtype : Z;
  tx_confirms : Z;
  tx_complete : bool;
  tx_processed : processed_value;
  tx_amount : option number
}.

(** A row of [user_wallet_job]. *)
Record WalletJob : Type := mkJob {
  job_job : string;
  job_type : string;
  job_state : Z;
  job_userId : option string;
  job_result : option string;
  job_data : string
}.

(** A row of [user_wallet_address]. *)
Record WalletAddress : Type := mkAddress {
  addr_address : string;
  addr_userId : option string
}.

(** A row of [user_wallet_balance]; [balance] is read as a number, the
    way the handler adds to it. *)
Record WalletBalance : Type := mkBalance {
  bal_userId : string;
  bal_balance : number
}.

(** A row of [user_wallet_status]. *)
Record WalletStatus : Type := mkStatus {
  st_type : string;
  st_online : bool;
  st_synced : bool;
  st_crawling : bool;
  st_blockheight : Z;
  st_blockhash : string;
  st_blocktime : Z;
  st_updatedAt : Z
}.

Record DB : Type := mkDB {
  txs : list WalletTx;
  jobs : list WalletJob;
  addresses : list WalletAddress;
  balances : list WalletBalance;
  statuses : list WalletStatus
}.

Definition with_txs (f : list WalletTx -> list WalletTx) (db : DB) : DB :=
  mkDB (f (txs db)) (jobs db) (addresses db) (balances db) (statuses db).

Definition with_jobs (f : list WalletJob -> list WalletJob) (db : DB) : DB :=
  mkDB (txs db) (f (jobs db)) (addresses db) (balances db) (statuses db).

Definition with_balances (f : list WalletBalance -> list WalletBalance)
           (db : DB) : DB :=
  mkDB (txs db) (jobs db) (addresses db) (f (balances db)) (statuses db).

Definition with_statuses (f : list WalletStatus -> list WalletStatus)
           (db : DB) : DB :=
  mkDB (txs db) (jobs db) (addresses db) (balances db) (f (statuses db)).

(** [update(table).set(...).where(...)]: every row that matches is
    rewritten. *)
Definition update_where {R : Type} (p : R -> bool) (set : R -> R)
           (rows : list R) : list R :=
  map (fun r => if p r then set r else r) rows.

Definition insert_row {R : Type} (r : R) (rows : list R) : list R :=
  rows ++ [r].

Definition has_txid (t : string) (r : WalletTx) : bool :=
  String.eqb (tx_txid r) t.

Definition has_job (t : string) (j : WalletJob) : bool :=
  String.eqb (job_job j) t.

Definition has_address (a : string) (r : WalletAddress) : bool :=
  String.eqb (addr_address r) a.

Definition has_user (u : string) (b : WalletBalance) : bool :=
  String.eqb (bal_userId b) u.

Definition has_type (c : string) (r : WalletStatus) : bool :=
  String.eqb (st_type r) c.

(** Modelled from the spec: the entity declaration of [user_wallet_tx]
    is not among the sources, and "Create Tx Entry" leaves [complete] to
    the column default; section 4.E, step 1 has [complete = false] on
    the new row. *)
Definition default_complete : bool := false.

(** Two rows collide on the composite key [(txid, txtype, userId)];
    a row whose [userId] is [null] collides with none. *)
Definition same_credit_key (a b : WalletTx) : bool :=
  String.eqb (tx_txid a) (tx_txid b)
  && Z.eqb (tx_txtype a) (tx_txtype b)
  && match tx_userId a, tx_userId b with
     | Some u, Some v => String.eqb u v
     | _, _ => false
     end.

(** Setters used by the [update] statements. *)
Definition set_confirms (c : Z) (r : WalletTx) : WalletTx :=
  mkTx (tx_userId r) (tx_txid r) (tx_blockhash r) (tx_coinType r)
       (tx_txtype r) c (tx_complete r) (tx_processed r) (tx_amount r).

Definition set_finalized (c : Z) (complete : bool) (r : WalletTx) : WalletTx :=
  mkTx (tx_userId r) (tx_txid r) (tx_blockhash r) (tx_coinType r)
       (tx_txtype r) c complete ProcessedOne (tx_amount r).

Definition set_job_processed (userId : string) (j : WalletJob) : WalletJob :=
  mkJob (job_job j) (job_type j) 3 (Some userId) (Some "okay"%string)
        (job_data j).

Definition set_balance (b : number) (r : WalletBalance) : WalletBalance :=
  mkBalance (bal_userId r) b.

End Db.

(** ** The message handlers of [IntercomBroker.setup] *)

Module Broker.

Import JsNumber Db.
Local Open Scope string_scope.

(** *** Handlers as database transformers that may throw *)

Inductive error : Type :=
| ReferenceError (name : string)
| TypeError (what : string)
| QueryFailedError (constraint : string).

Inductive outcome (A : Type) : Type :=
| Returned (a : A)
| Thrown (e : error).

Arguments Returned {A} a.
Arguments Thrown {A} e.

(** The database is threaded through; what was written before a throw
    stays written. *)
Definition M (A : Type) : Type := DB -> DB * outcome A.

Definition ret {A : Type} (a : A) : M A := fun db => (db, Returned a).

Definition throw {A : Type} (e : error) : M A := fun db => (db, Thrown e).

Definition bind {A B : Type} (m : M A) (k : A -> M B) : M B :=
  fun db =>
    match m db with
    | (db', Returned a) => k a db'
    | (db', Thrown e) => (db', Thrown e)
    end.

Definition gets {A : Type} (q : DB -> A) : M A := fun db => (db, Returned (q db)).

Definition modify (f : DB -> DB) : M unit := fun db => (f db, Returned tt).

Notation "x <- c ;; k" := (bind c (fun x => k))
  (at level 61, c at next level, right associativity).
Notation "c ;;; k" := (bind c (fun _ => k))
  (at level 61, right associativity).

Fixpoint forEach {A : Type} (body : A -> M unit) (l : list A) : M unit :=
  match l with
  | [] => ret tt
  | x :: l' => body x ;;; forEach body l'
  end.

Definition db_of {A : Type} (r : DB * outcome A) : DB := fst r.
Definition outcome_of {A : Type} (r : DB * outcome A) : outcome A := snd r.

(** *** Payloads *)

Record BalanceEntry : Type := mkBal {
  b_address : string;
  b_balance : string
}.

(** The parsed NOTIFY message. *)
Record Notify : Type := mkNotify {
  n_txid : string;
  n_coin : string;
  n_confirmations : Z;
  n_balances : list BalanceEntry
}.

(** The parsed HEARTBEAT message. *)
Record Heartbeat : Type := mkHeartbeat {
  h_coin : string;
  h_online : bool;
  h_synced : bool;
  h_crawling : bool;
  h_blockheight : Z;
  h_bestBlockHash : string;
  h_blocktime : Z
}.

(** *** The [users] map of the NOTIFY handler

    A [Map] from address to [{ userId, balance }]; it iterates in
    insertion order and [set] on a key already present keeps the key's
    place. *)

Record UserEntry : Type := mkEntry {
  e_userId : string;
  e_balance : string
}.

Definition Users : Type := list (string * UserEntry).

Fixpoint map_set (k : string) (v : UserEntry) (m : Users) : Users :=
  match m with
  | [] => [(k, v)]
  | (k', v') :: m' =>
      if String.eqb k' k then (k', v) :: m' else (k', v') :: map_set k v m'
  end.

Section Handlers.

(** Two facts of the schema come from entity declarations that the
    handlers only use: whether [user_wallet_tx] carries the unique
    index on [(txid, txtype, userId)], and the value an inserted
    [user_wallet_status] row gets in [updatedAt] (the handler does
    not supply one), as a function of the time of the insert. *)
Variable unique_credit : bool.
Variable updatedAt_default : Z -> Z.

(** [insert().into('user_wallet_tx')]; with the unique index, a row
    whose key is taken makes the statement throw. *)
Definition insert_tx (r : WalletTx) : M unit :=
  fun db =>
    if unique_credit && existsb (same_credit_key r) (txs db)
    then (db, Thrown (QueryFailedError "user_wallet_tx(txid, txtype, userId)"))
    else (with_txs (insert_row r) db, Returned tt).

(** Line 209 reads [tx.complete], and [tx] is the [const] declared at
    line 253 of the same block: the read throws. *)
Definition tx_before_declaration : M WalletTx :=
  throw (ReferenceError "tx").

(** Line 221 assigns to the [const] [jobe]. *)
Definition assign_jobe : M bool :=
  throw (TypeError "Assignment to constant variable.").

(** "Create Job" (lines 208-222). *)
Definition create_job (rxData : string) (json : Notify) (jobe : bool)
  : M bool :=
  if negb jobe then
    tx <- tx_before_declaration ;;
    if negb (tx_complete tx) && (n_confirmations json >=? 0)%Z then
      modify (with_jobs (insert_row
        (mkJob (n_txid json) (n_coin json) 0 None None rxData))) ;;;
      assign_jobe
    else ret jobe
  else ret jobe.

(** "Create Tx Entry" / "Update Tx Entry" (lines 224-250). *)
Definition upsert_tx (json : Notify) (txe : bool) : M unit :=
  if negb txe then
    insert_tx (mkTx None (n_txid json) "" 0 1 (n_confirmations json)
                    default_complete ProcessedDefault None)
  else
    modify (with_txs (update_where (has_txid (n_txid json))
                        (set_confirms (n_confirmations json)))).

(** The loop over [json.balances] (lines 268-309). *)
Fixpoint attribute (rxData : string) (json : Notify) (jobe : bool)
         (bals : list BalanceEntry) (users : Users) : M Users :=
  match bals with
  | [] => ret users
  | bal :: rest =>
      address <- gets (fun db =>
                    find (has_address (b_address bal)) (addresses db)) ;;
      match address with
      | Some a =>
          match addr_userId a with
          | Some userId =>
              let users' :=
                map_set (addr_address a)
                        (mkEntry userId (b_balance bal)) users in
              (if negb jobe then
                 modify (with_jobs (insert_row
                   (mkJob (n_txid json) (n_coin json) 3 (Some userId)
                          None rxData)))
               else
                 modify (with_jobs (update_where (has_job (n_txid json))
                                      (set_job_processed userId)))) ;;;
              attribute rxData json jobe rest users'
          | None => attribute rxData json jobe rest users
          end
      | None => attribute rxData json jobe rest users
      end
  end.

(** One turn of the loop over [users.keys()] (lines 324-363). *)
Definition credit (json : Notify) (kv : string * UserEntry) : M unit :=
  let usr := fst kv in
  let bal := parseFloat (Amount.parseFromIntString (e_balance (snd kv)) 8) in
  let uid := e_userId (snd kv) in
  insert_tx (mkTx (Some uid) (n_txid json) usr 0 3 (n_confirmations json)
                  true (ProcessedEntry uid (e_balance (snd kv)))
                  (Some bal)) ;;;
  userBalance <- gets (fun db => find (has_user uid) (balances db)) ;;
  match userBalance with
  | None =>
      throw (TypeError "Cannot read properties of undefined (reading 'balance')")
  | Some row =>
      let nbal := add (bal_balance row) bal in
      modify (with_balances (update_where (has_user uid) (set_balance nbal)))
  end.

(** "Check Job" (lines 265-365). *)
Definition check_job (rxData : string) (json : Notify) (jobe : bool)
           (tx : option WalletTx) : M unit :=
  match tx with
  | Some t =>
      if negb (tx_complete t) && (n_confirmations json >=? 3)%Z then
        users <- attribute rxData json jobe (n_balances json) [] ;;
        modify (with_txs (update_where (has_txid (n_txid json))
                  (set_finalized (n_confirmations json)
                                 (n_confirmations json >=? 3)%Z))) ;;;
        forEach (credit json) users
      else ret tt
  | None => ret tt
  end.

(** The NOTIFY handler; the value returned is what it passes to
    [sendReply]. *)
Definition notify (rxData : string) (json : Notify) : M string :=
  jobe <- gets (fun db => existsb (has_job (n_txid json)) (jobs db)) ;;
  txe <- gets (fun db => existsb (has_txid (n_txid json)) (txs db)) ;;
  jobe <- create_job rxData json jobe ;;
  upsert_tx json txe ;;;
  tx <- gets (fun db => find (has_txid (n_txid json)) (txs db)) ;;
  check_job rxData json jobe tx ;;;
  ret "Recieved NOTIFY".

(** The HEARTBEAT handler, run at time [now]. *)
Definition heartbeat (now : Z) (json : Heartbeat) : M string :=
  status <- gets (fun db => existsb (has_type (h_coin json)) (statuses db)) ;;
  (if status then
     modify (with_statuses (update_where (has_type (h_coin json))
       (fun r => mkStatus (st_type r) (h_online json) (h_synced json)
                   (h_crawling json) (h_blockheight json)
                   (h_bestBlockHash json) (h_blocktime json) now)))
   else
     modify (with_statuses (insert_row
       (mkStatus (h_coin json) (h_online json) (h_synced json)
          (h_crawling json) (h_blockheight json)
          (h_bestBlockHash json) (h_blocktime json)
          (updatedAt_default now))))) ;;;
  ret "Recieved HEARTBEAT".

(** The database after a handler has run, whether it replied or
    threw. *)
Definition after_notify (rxData : string) (json : Notify) (db : DB) : DB :=
  db_of (notify rxData json db).

(** Delivering the messages of a list one after the other. *)
Definition deliver_all (msgs : list (string * Notify)) (db : DB) : DB :=
  fold_left (fun d m => after_notify (fst m) (snd m) d) msgs db.

End Handlers.

End Broker.

(** ** What the claims observe of a database *)

Module Ledger.

Import JsNumber Db Broker.
Local Open Scope string_scope.

(** [m] keeps [I]: from a database where [I] holds, [m] ends in one
    where it holds, whether [m] returns or throws. *)
Definition keeps {A : Type} (I : DB -> Prop) (m : M A) : Prop :=
  forall db, I db -> I (db_of (m db)).

(** The credit (type-3) rows of a transaction. *)
Definition is_credit_of (t : string) (r : WalletTx) : bool :=
  has_txid t r && Z.eqb (tx_txtype r) 3.

Definition credit_rows (t : string) (db : DB) : list WalletTx :=
  filter (is_credit_of t) (txs db).

(** The credit rows of a transaction for one user. *)
Definition credits_for (t u : string) (db : DB) : list WalletTx :=
  filter (fun r => match tx_userId r with
                   | Some v => String.eqb v u
                   | None => false
                   end) (credit_rows t db).

(** A row with its [confirms] column blanked: what every NOTIFY for the
    transaction may rewrite. *)
Definition forget_confirms (r : WalletTx) : WalletTx := set_confirms 0 r.

(** The row [getOne] finds for a transaction is complete. *)
Definition completed (t : string) (db : DB) : bool :=
  match find (has_txid t) (txs db) with
  | Some r => tx_complete r
  | None => false
  end.

Definition job_exists (t : string) (db : DB) : bool :=
  existsb (has_job t) (jobs db).

(** The database after "Create Tx Entry" / "Update Tx Entry". *)
Definition first_row (json : Notify) : WalletTx :=
  mkTx None (n_txid json) "" 0 1 (n_confirmations json) default_complete
       ProcessedDefault None.

Definition upserted (json : Notify) (db : DB) : DB :=
  if existsb (has_txid (n_txid json)) (txs db)
  then with_txs (update_where (has_txid (n_txid json))
                   (set_confirms (n_confirmations json))) db
  else with_txs (insert_row (first_row json)) db.

(** The database after the "Update Tx Entry" of the crediting branch. *)
Definition finalized (json : Notify) (db : DB) : DB :=
  with_txs (update_where (has_txid (n_txid json))
              (set_finalized (n_confirmations json) true)) db.

(** The row one turn of the crediting loop inserts, and the amount it
    adds to the balance. *)
Definition credit_amount (kv : string * UserEntry) : number :=
  parseFloat (Amount.parseFromIntString (e_balance (snd kv)) 8).

Definition credit_row (json : Notify) (kv : string * UserEntry) : WalletTx :=
  mkTx (Some (e_userId (snd kv))) (n_txid json) (fst kv) 0 3
       (n_confirmations json) true
       (ProcessedEntry (e_userId (snd kv)) (e_balance (snd kv)))
       (Some (credit_amount kv)).

(** All the rows of a transaction, in insertion order. *)
Definition rows_of (t : string) (db : DB) : list WalletTx :=
  filter (has_txid t) (txs db).

(** Every row of transaction [t] has [confirms = c]. *)
Definition rows_confirm (t : string) (c : Z) (db : DB) : Prop :=
  forall r, In r (txs db) -> has_txid t r = true -> tx_confirms r = c.

(** Every row of transaction [t] is complete. *)
Definition rows_complete (t : string) (db : DB) : Prop :=
  forall r, In r (txs db) -> has_txid t r = true -> tx_complete r = true.

(** The amounts of a user's credit rows, in insertion order. *)
Definition is_credit_to (u : string) (r : WalletTx) : bool :=
  Z.eqb (tx_txtype r) 3
  && match tx_userId r with
     | Some v => String.eqb v u
     | None => false
     end.

Definition amounts_of (rows : list WalletTx) : list number :=
  flat_map (fun r => match tx_amount r with
                     | Some a => [a]
                     | None => []
                     end) rows.

Definition credited (u : string) (db : DB) : list number :=
  amounts_of (filter (is_credit_to u) (txs db)).

(** The ledger of a user as the code computes it: the amounts added
    one after the other, as numbers, to zero. *)
Definition ledger (u : string) (db : DB) : number :=
  fold_left add (credited u db) zero.

(** The cached balance of every user that has a balance row is that
    user's ledger. *)
Definition balances_match (db : DB) : Prop :=
  forall u row,
    find (has_user u) (balances db) = Some row ->
    bal_balance row = ledger u db.

(** The exact amount an integer string of smallest units denotes at
    precision [p]. *)
Definition exact_amount (s : string) (p : Z) : Q :=
  Qmake (JsString.decimal s) (Z.to_pos (10 ^ p)).



End Ledger.

(** ** Databases and messages of the end-to-end scenarios *)

Module Scenario.

Import JsNumber Db Broker.
Local Open Scope string_scope.

(** A job row in state 0, as "Create Job" would write it. *)
Definition job0 (t : string) : WalletJob := mkJob t "X" 0 None None "".

(** User U1 owns address A1 and has a zero balance; nothing is known
    of any transaction. *)
Definition db_fresh : DB :=
  mkDB [] [] [mkAddress "A1" (Some "U1")] [mkBalance "U1" zero] [].

(** The same, after T1 has been seen with no confirmation: its type-1
    row is there, unconfirmed. *)
Definition db_seen : DB :=
  mkDB [mkTx None "T1" "" 0 1 0 false ProcessedDefault None] []
       [mkAddress "A1" (Some "U1")] [mkBalance "U1" zero] [].

(** The number 1.5. *)
Definition one_and_a_half : number := S754_finite false 6755399441055744 (-52).

(** What scenario 2 expects of the tables. *)
Definition db_credited : DB :=
  mkDB [mkTx None "T1" "" 0 1 3 true ProcessedOne None;
        mkTx (Some "U1") "T1" "A1" 0 3 3 true
             (ProcessedEntry "U1" "150000000") (Some one_and_a_half)]
       [mkJob "T1" "X" 3 (Some "U1") (Some "okay") ""]
       [mkAddress "A1" (Some "U1")]
       [mkBalance "U1" one_and_a_half] [].

(** [db_fresh] with the job row of T1 present. *)
Definition db_job : DB :=
  mkDB [] [job0 "T1"] [mkAddress "A1" (Some "U1")] [mkBalance "U1" zero] [].

(** [db_fresh] with the job rows of T1 and T2 present. *)
Definition db_two_jobs : DB :=
  mkDB [] [job0 "T1"; job0 "T2"] [mkAddress "A1" (Some "U1")]
       [mkBalance "U1" zero] [].

(** U1 owns A1 and A2. *)
Definition db_two_addresses : DB :=
  mkDB [] [job0 "T1"]
       [mkAddress "A1" (Some "U1"); mkAddress "A2" (Some "U1")]
       [mkBalance "U1" zero] [].

(** U1 owns A1 and has no balance row. *)
Definition db_no_balance : DB :=
  mkDB [] [job0 "T1"] [mkAddress "A1" (Some "U1")] [] [].

(** NOTIFY for T1 paying 1.5 coins to A1. *)
Definition notify_T1 (confirmations : Z) : Notify :=
  mkNotify "T1" "X" confirmations [mkBal "A1" "150000000"].

(** NOTIFY for [t] paying [units] smallest units to A1, 3 confirmations. *)
Definition notify_pay (t units : string) : Notify :=
  mkNotify t "X" 3 [mkBal "A1" units].

(** NOTIFY for T1 paying to A1 and to A2. *)
Definition notify_two_outputs : Notify :=
  mkNotify "T1" "X" 3 [mkBal "A1" "100"; mkBal "A2" "200"].

(** The HEARTBEAT of scenario 6, at a given block height. *)
Definition heartbeat_at (blockheight : Z) : Heartbeat :=
  mkHeartbeat "X" true true false blockheight "H" 1700000000.

Definition heartbeat_900 : Heartbeat := heartbeat_at 900.

(** The cached balance of a user, and the [confirms] that [getOne]
    reads for a transaction. *)
Definition balance_of (u : string) (db : DB) : option number :=
  option_map bal_balance (find (has_user u) (balances db)).

Definition confirms_of (t : string) (db : DB) : option Z :=
  option_map tx_confirms (find (has_txid t) (txs db)).

(** The database after T1 has paid 0.1 coin and T2 has paid 0.2 coin to
    A1. *)
Definition db_paid_01_02 (unique_credit : bool) : DB :=
  deliver_all unique_credit
    [("", notify_pay "T1" "10000000"); ("", notify_pay "T2" "20000000")]
    db_two_jobs.

(** The number 5404319552844596 * 2^-54. *)
Definition rounded_sum : number := S754_finite false 5404319552844596 (-54).

(** [confirms] of T1 after [confirmations: 5], and after
    [confirmations: 2] has followed. *)
Definition confirms_5_then_2 (unique_credit : bool) : option Z * option Z :=
  let db5 := after_notify unique_credit "" (notify_T1 5) db_job in
  let db2 := after_notify unique_credit "" (notify_T1 2) db5 in
  (confirms_of "T1" db5, confirms_of "T1" db2).

(** The database after T1 has been delivered with [c] confirmations
    while its job row was there. *)
Definition db_confirmed (c : Z) : DB :=
  after_notify false "" (notify_T1 c) db_job.

(** Deliveries that follow. *)
Definition later_deliveries : list (string * Notify) :=
  [("", notify_T1 3); ("", notify_T1 7)].

(** The database after the NOTIFY that pays to A1 and to A2. *)
Definition db_two_outputs (unique_credit : bool) : DB :=
  after_notify unique_credit "" notify_two_outputs db_two_addresses.

(** The database after T1 was to be credited to a user without a
    balance row. *)
Definition db_uncredited : DB :=
  after_notify false "" (notify_T1 3) db_no_balance.

End Scenario.

(** ** The [wallet/address] endpoint *)

Module WalletAddressEndpoint.

Import Db.
Local Open Scope string_scope.

Record User : Type := mkUser { user_id : string }.

(** The parameters of the call; [userId] absent or [null] is [None]. *)
Record Params : Type := mkParams {
  ps_userId : option string;
  ps_username : option string;
  ps_host : option string
}.

Record ApiError : Type := mkApiError {
  err_message : string;
  err_code : string;
  err_id : string
}.

(** [meta.errors.noSuchUser] *)
Definition noSuchUser : ApiError :=
  mkApiError "No such user." "NO_SUCH_USER"
             "88b36214-5918-4cec-be59-df48a42c53d7".

Definition has_id (i : string) (u : User) : bool := String.eqb (user_id u) i.

Definition owned_by (i : string) (w : WalletAddress) : bool :=
  match addr_userId w with
  | Some u => String.eqb u i
  | None => false
  end.

(** The handler given to [define]: [inl] is the [ApiError] thrown,
    [inr] the value returned. *)
Definition handler (Users : list User)
           (UserWalletAddresses : list WalletAddress)
           (ps : Params) (me : option User) : ApiError + string :=
  let user :=
    match me with
    | Some m =>
        find (has_id (match ps_userId ps with
                      | Some i => i
                      | None => user_id m
                      end)) Users
    | None => None
    end in
  match user with
  | None => inl noSuchUser
  | Some u =>
      match find (owned_by (user_id u)) UserWalletAddresses with
      | Some wallet => inr (addr_address wallet)
      | None => inr ""
      end
  end.

End WalletAddressEndpoint.

(** ** Strings of decimal digits *)

Module DigitString.

Local Open Scope string_scope.

(** Every character is one of ['0'] .. ['9']. *)
Fixpoint all_digits (s : string) : bool :=
  match s with
  | "" => true
  | String c s' => JsString.is_digit c && all_digits s'
  end.

(** The index of the ['.'] in the result of [parseFromIntString] on a
    string of length [L] at precision [p]. *)
Definition dot_index (L p : nat) : nat := Nat.max (L - p) 1.

End DigitString.

(** ** The writes of the NOTIFY handler *)

Module Footprint.

Import JsNumber Db Broker Ledger.
Local Open Scope string_scope.

(** One statement of the handler that writes, for the message [json]:
    the two job statements, the two inserts and the two updates of
    [user_wallet_tx], and the update of [user_wallet_balance]. *)
Inductive write (json : Notify) : DB -> DB -> Prop :=
| write_job_insert (j : WalletJob) (db : DB) :
    job_job j = n_txid json ->
    write json db (with_jobs (insert_row j) db)
| write_job_update (userId : string) (db : DB) :
    write json db
      (with_jobs (update_where (has_job (n_txid json))
                    (set_job_processed userId)) db)
| write_tx_first (db : DB) :
    write json db (with_txs (insert_row (first_row json)) db)
| write_tx_credit (kv : string * UserEntry) (db : DB) :
    write json db (with_txs (insert_row (credit_row json kv)) db)
| write_tx_confirms (db : DB) :
    write json db
      (with_txs (update_where (has_txid (n_txid json))
                   (set_confirms (n_confirmations json))) db)
| write_tx_finalized (db : DB) :
    write json db (finalized json db)
| write_balance (userId : string) (nbal : number) (db : DB) :
    write json db
      (with_balances (update_where (has_user userId) (set_balance nbal)) db).

(** A run of writes. *)
Inductive writes (json : Notify) : DB -> DB -> Prop :=
| writes_none (db : DB) : writes json db db
| writes_more (a b c : DB) :
    writes json a b -> write json b c -> writes json a c.

(** [kept] rows followed by [added] rows, the kept rows related one by
    one to the rows before. *)
Definition grows_from {R : Type} (rel : R -> R -> Prop)
           (before after : list R) : Prop :=
  exists kept added, after = (kept ++ added)%list /\ Forall2 rel before kept.

(** What a row of [user_wallet_tx] keeps through a write: everything
    but [confirms] and [processed], and [complete] once it is set. *)
Definition tx_advance (r r' : WalletTx) : Prop :=
  tx_txid r' = tx_txid r /\ tx_txtype r' = tx_txtype r
  /\ tx_userId r' = tx_userId r /\ tx_blockhash r' = tx_blockhash r
  /\ tx_coinType r' = tx_coinType r /\ tx_amount r' = tx_amount r
  /\ (tx_complete r = true -> tx_complete r' = true).

(** What a row of [user_wallet_job] keeps: key, type and data; its
    state stays or becomes 3. *)
Definition job_advance (j j' : WalletJob) : Prop :=
  job_job j' = job_job j /\ job_type j' = job_type j
  /\ job_data j' = job_data j
  /\ (job_state j' = job_state j \/ job_state j' = 3%Z).

Definition same_user (b b' : WalletBalance) : Prop :=
  bal_userId b' = bal_userId b.

End Footprint.

(** ** The loop over [json.balances], as a function of the address table *)

Module Attribution.

Import JsNumber Db Broker Ledger.
Local Open Scope string_scope.

(** The entry that one [{ address, balance }] of the message puts in the
    [users] map: none when the address is unknown or has no user. *)
Definition attributed_entry (addrs : list WalletAddress) (bal : BalanceEntry)
  : option (string * UserEntry) :=
  match find (has_address (b_address bal)) addrs with
  | Some a =>
      match addr_userId a with
      | Some userId => Some (addr_address a, mkEntry userId (b_balance bal))
      | None => None
      end
  | None => None
  end.

(** The entries of a whole message, in the order of [json.balances]. *)
Definition attributed (addrs : list WalletAddress) (bals : list BalanceEntry)
  : list (string * UserEntry) :=
  flat_map (fun bal => match attributed_entry addrs bal with
                       | Some kv => [kv]
                       | None => []
                       end) bals.

(** [users.set] for each entry in turn. *)
Definition users_from (entries : list (string * UserEntry)) (start : Users)
  : Users :=
  fold_left (fun m kv => map_set (fst kv) (snd kv) m) entries start.

(** "Process Job" for each entry in turn. *)
Definition promote_all (t : string) (entries : list (string * UserEntry))
           (js : list WalletJob) : list WalletJob :=
  fold_left (fun l kv => update_where (has_job t)
                           (set_job_processed (e_userId (snd kv))) l)
            entries js.

(** [users.get(k)]. *)
Definition users_get (k : string) (m : Users) : option UserEntry :=
  option_map snd (find (fun kv => String.eqb (fst kv) k) m).

(** The [users] map of a delivery, and the database when the loop over
    [users.keys()] starts: the rows of the transaction upserted, the
    job promoted, the rows finalized. *)
Definition credit_users (json : Notify) (db : DB) : Users :=
  users_from (attributed (addresses db) (n_balances json)) [].

Definition credit_base (json : Notify) (db : DB) : DB :=
  finalized json
    (with_jobs (promote_all (n_txid json)
                  (attributed (addresses db) (n_balances json)))
       (upserted json db)).

(** Every user of the map has a balance row. *)
Definition all_have_balance (users : Users) (db : DB) : bool :=
  forallb (fun kv => existsb (has_user (e_userId (snd kv))) (balances db)) users.

End Attribution.

(** ** Further databases and messages *)

Module Cases.

Import JsNumber Db Broker.
Local Open Scope string_scope.

(** U1 owns A1, U2 owns A2, both have a zero balance, and the job row
    of T1 is present. *)
Definition db_two_users : DB :=
  mkDB [] [Scenario.job0 "T1"]
       [mkAddress "A1" (Some "U1"); mkAddress "A2" (Some "U2")]
       [mkBalance "U1" zero; mkBalance "U2" zero] [].


(** NOTIFY for T1 that names A1 twice. *)
Definition notify_repeated_address : Notify :=
  mkNotify "T1" "X" 3 [mkBal "A1" "100"; mkBal "A2" "200"; mkBal "A1" "300"].

End Cases.

(** ** Handlers that do not look at the status table *)

Module Independence.

Import Db Broker Ledger.

(** [m] neither reads nor writes [user_wallet_status]: run on a
    database whose status table has been replaced, it does the same and
    leaves the replacement in place. *)
Definition ignores_statuses {A : Type} (m : M A) : Prop :=
  forall (s : list WalletStatus) (db : DB),
    m (with_statuses (fun _ => s) db)
    = (with_statuses (fun _ => s) (db_of (m db)), outcome_of (m db)).

(** The status table a HEARTBEAT leaves, from the one it finds. *)
Definition heartbeat_statuses (updatedAt_default : Z -> Z) (now : Z)
           (json : Heartbeat) (rows : list WalletStatus) : list WalletStatus :=
  if existsb (has_type (h_coin json)) rows
  then update_where (has_type (h_coin json))
         (fun r => mkStatus (st_type r) (h_online json) (h_synced json)
                     (h_crawling json) (h_blockheight json)
                     (h_bestBlockHash json) (h_blocktime json) now) rows
  else insert_row
         (mkStatus (h_coin json) (h_online json) (h_synced json)
            (h_crawling json) (h_blockheight json) (h_bestBlockHash json)
            (h_blocktime json) (updatedAt_default now)) rows.

(** The columns a HEARTBEAT takes from its message. *)
Definition carries (json : Heartbeat) (r : WalletStatus) : Prop :=
  st_online r = h_online json /\ st_synced r = h_synced json
  /\ st_crawling r = h_crawling json
  /\ st_blockheight r = h_blockheight json
  /\ st_blockhash r = h_bestBlockHash json
  /\ st_blocktime r = h_blocktime json.

Definition same_type (r r' : WalletStatus) : Prop := st_type r' = st_type r.

End Independence.

(** ** The reply callback of [getNewAddress] *)

Module NewAddress.

Local Open Scope string_scope.

(** A value [JSON.parse] returns. *)
#[warnings="-register-all"] Inductive Json : Type :=
| JNull
| JBool (b : bool)
| JNumber (n : JsNumber.number)
| JString (s : string)
| JArray (items : list Json)
| JObject (fields : list (string * Json)).

(** [json.k] on a value that is not [null]; [None] is [undefined]. *)
Definition prop (k : string) (json : Json) : option Json :=
  match json with
  | JObject fields =>
      option_map snd (find (fun kv => String.eqb (fst kv) k) fields)
  | _ => None
  end.

(** [v === true] *)
Definition is_true (v : option Json) : bool :=
  match v with
  | Some (JBool true) => true
  | _ => false
  end.

(** What can be caught or passed on as an error: the error [sendMsg]
    hands over, [new Error(json.message)], the [TypeError] of reading
    [message] of [null], and whatever the caller's callback throws,
    which may be a [SyntaxError]. *)
Inductive Exn : Type :=
| TransportError (what : string)
| ReplyError (message : option Json)
| NullRead
| CallbackError (syntax : bool) (what : string).

(** [e instanceof SyntaxError] *)
Definition is_syntax (e : Exn) : bool :=
  match e with
  | CallbackError syntax _ => syntax
  | _ => false
  end.

(** The second argument given to [cb]. *)
Inductive Data : Type :=
| DataMessage (v : option Json)
| DataRaw (rxData : string)
| DataNull.

Record Call : Type := mkCall {
  call_error : option Exn;
  call_data : Data
}.

(** The caller's callback: what it throws on a call, if anything. *)
Definition Callback : Type := Call -> option Exn.

(** What handling one reply does: the errors logged, the calls of [cb]
    in order, and the exception that leaves the callback, if any. *)
Record Run : Type := mkRun {
  logged : list Exn;
  calls : list Call;
  escaped : option Exn
}.

(** The [try] block (lines 623-631): the calls made and what is
    thrown. *)
Definition try_block (cb : Callback) (json : Json)
  : list Call * option Exn :=
  match json with
  | JNull => ([], Some NullRead)
  | _ =>
      if is_true (prop "isError" json)
      then ([], Some (ReplyError (prop "message" json)))
      else let c := mkCall None (DataMessage (prop "message" json)) in
           ([c], cb c)
  end.

(** The [catch] block (lines 632-639). *)
Definition catch_block (rxData : string) (e : Exn) : Call :=
  if is_syntax e then mkCall None (DataRaw rxData)
  else mkCall (Some e) DataNull.

(** The callback given to [sendMsg] (lines 618-641); [parse] is
    [JSON.parse], [None] when it throws its [SyntaxError]. *)
Definition reply (parse : string -> option Json) (cb : Callback)
           (e : option Exn) (rxData : string) : Run :=
  match e with
  | Some err => mkRun [err] [] None
  | None =>
      match parse rxData with
      | None =>
          let c := mkCall None (DataRaw rxData) in
          mkRun [] [c] (cb c)
      | Some json =>
          match try_block cb json with
          | (made, None) => mkRun [] made None
          | (made, Some thrown) =>
              let c := catch_block rxData thrown in
              mkRun [] (made ++ [c]) (cb c)
          end
      end
  end.

(** A call in the style the callback is declared for: an error and no
    data, or no error and data. *)
Definition well_formed (c : Call) : bool :=
  match call_error c, call_data c with
  | Some _, DataNull => true
  | None, DataMessage _ => true
  | None, DataRaw _ => true
  | _, _ => false
  end.

End NewAddress.

(** ** The configuration loader: [convertRedisOptions] and the media
       proxy fields of [loadConfig] *)

Module Config.

Local Open Scope string_scope.

(** [x ?? d] *)
Definition nullish {A : Type} (x : option A) (d : A) : A :=
  match x with
  | Some v => v
  | None => d
  end.

(** The fields of the Redis options that [convertRedisOptions] reads or
    sets; [r_others] is the rest of the object, which the spread
    copies. *)
Record RedisOptions (Others : Type) : Type := mkRedis {
  r_host : string;
  r_port : Z;
  r_family : option Z;
  r_pass : string;
  r_db : option Z;
  r_prefix : option string;
  r_password : option string;
  r_keyPrefix : option string;
  r_others : Others
}.

Definition convertRedisOptions {Others : Type} (options : RedisOptions Others)
           (host : string) : RedisOptions Others :=
  mkRedis (r_host options) (r_port options)
          (Some (nullish (r_family options) 0%Z))
          (r_pass options)
          (Some (nullish (r_db options) 0%Z))
          (Some (nullish (r_prefix options) host))
          (Some (r_pass options))
          (Some (nullish (r_prefix options) host ++ ":"))
          (r_others options).

(** [s.endsWith('/')] *)
Definition ends_with_slash (s : string) : bool :=
  match String.length s with
  | O => false
  | S n => match String.get n s with
           | Some c => Ascii.eqb c "/"
           | None => false
           end
  end.

(** [x ? (x.endsWith('/') ? x.substring(0, x.length - 1) : x) : null],
    the expression of [externalMediaProxy] and of
    [videoThumbnailGenerator]; an absent and an empty [x] are falsy. *)
Definition without_slash (x : option string) : option string :=
  match x with
  | None => None
  | Some "" => None
  | Some s =>
      Some (if ends_with_slash s
            then JsString.substring s 0 (JsString.len s - 1)
            else s)
  end.

Definition internalMediaProxy (scheme host : string) : string :=
  scheme ++ "://" ++ host ++ "/proxy".

(** The [mediaProxy] field of the configuration. *)
Definition mediaProxy (configured : option string) (scheme host : string)
  : string :=
  nullish (without_slash configured) (internalMediaProxy scheme host).

(** The [externalMediaProxyEnabled] field of the configuration. *)
Definition externalMediaProxyEnabled (configured : option string)
           (scheme host : string) : bool :=
  match without_slash configured with
  | Some external => negb (String.eqb external (internalMediaProxy scheme host))
  | None => false
  end.

End Config.

(* ================================================================= *)
(** * Part II: theorems                                               *)
(* ================================================================= *)

Module AmountFacts.

Import JsString Amount.
Local Open Scope string_scope.

(** *** Facts on [String.substring] and on [JsString.substring] *)

Lemma substring_0_all (s : string) : String.substring 0 (String.length s) s = s.
Proof. induction s as [|c s IH]; simpl; [reflexivity | now rewrite IH]. Qed.

Lemma substring_split (s : string) (n m : nat) :
  (n + m = String.length s)%nat ->
  String.substring 0 n s ++ String.substring n m s = s.
Proof.
  revert n m; induction s as [|c s IH]; intros n m H; simpl in H.
  - assert (n = O) by lia; assert (m = O) by lia; subst; reflexivity.
  - destruct n as [|n]; simpl.
    + simpl in H; subst m; simpl. now rewrite substring_0_all.
    + f_equal. apply IH. lia.
Qed.

Lemma substring_length (s : string) (n m : nat) :
  (n + m <= String.length s)%nat ->
  String.length (String.substring n m s) = m.
Proof.
  revert n m; induction s as [|c s IH]; intros n m H; simpl in H.
  - assert (n = O) by lia; assert (m = O) by lia; subst; reflexivity.
  - destruct n as [|n]; simpl.
    + destruct m as [|m]; simpl; [reflexivity|]. f_equal. apply IH. lia.
    + apply IH. lia.
Qed.

Lemma substring_snoc (s : string) (n m : nat) :
  (n + m < String.length s)%nat ->
  String.substring n m s ++ String.substring (n + m) 1 s
  = String.substring n (S m) s.
Proof.
  revert n m; induction s as [|c s IH]; intros n m H; simpl in H; [lia|].
  destruct n as [|n]; simpl.
  - destruct m as [|m]; simpl.
    + reflexivity.
    + f_equal. apply (IH O m). lia.
  - apply IH. lia.
Qed.

Lemma js_substring_inrange (s : string) (a b : nat) :
  (a <= b <= String.length s)%nat ->
  JsString.substring s (Z.of_nat a) (Z.of_nat b) = String.substring a (b - a) s.
Proof.
  intros H. unfold JsString.substring, clamp, len.
  replace (Z.max 0 (Z.min (Z.of_nat a) (Z.of_nat (String.length s))))
    with (Z.of_nat a) by lia.
  replace (Z.max 0 (Z.min (Z.of_nat b) (Z.of_nat (String.length s))))
    with (Z.of_nat b) by lia.
  replace (Z.min (Z.of_nat a) (Z.of_nat b)) with (Z.of_nat a) by lia.
  replace (Z.max (Z.of_nat a) (Z.of_nat b)) with (Z.of_nat b) by lia.
  rewrite Nat2Z.id. f_equal. lia.
Qed.

Lemma append_assoc (a b c : string) : (a ++ b) ++ c = a ++ b ++ c.
Proof. induction a as [|x a IH]; simpl; [reflexivity | now rewrite IH]. Qed.

Lemma length_append (a b : string) :
  String.length (a ++ b) = (String.length a + String.length b)%nat.
Proof. induction a as [|x a IH]; simpl; [reflexivity | now rewrite IH]. Qed.

Lemma length_zeros (n : nat) : String.length (zeros n) = n.
Proof. induction n as [|n IH]; simpl; [reflexivity | now rewrite IH]. Qed.

(** *** The padding loop *)

(** While the index stays inside the string the loop copies it. *)
Lemma pad_copy (s : string) (m k : nat) (acc : string) :
  (k + m <= String.length s)%nat ->
  fold_left (pad_step s) (seq k m) (acc ++ String.substring 0 k s)
  = acc ++ String.substring 0 (k + m) s.
Proof.
  revert k; induction m as [|m IH]; intros k H; simpl.
  - now rewrite Nat.add_0_r.
  - unfold pad_step at 2. unfold len.
    destruct (Z.leb_spec (Z.of_nat k) (Z.of_nat (String.length s) - 1)); [|lia].
    replace (Z.of_nat k + 1)%Z with (Z.of_nat (S k)) by lia.
    rewrite js_substring_inrange by lia.
    replace (S k - k)%nat with 1%nat by lia.
    rewrite append_assoc.
    pose proof (substring_snoc s O k) as E. simpl Nat.add in E.
    rewrite E by lia.
    rewrite IH by lia. do 2 f_equal. lia.
Qed.

(** Past the end of the string every turn puts one more ['0'] in front. *)
Lemma pad_zeros (s : string) (m k : nat) (acc : string) :
  (String.length s <= k)%nat ->
  fold_left (pad_step s) (seq k m) acc = zeros m ++ acc.
Proof.
  revert k acc; induction m as [|m IH]; intros k acc H; simpl.
  - reflexivity.
  - unfold pad_step at 2. unfold len.
    destruct (Z.leb_spec (Z.of_nat k) (Z.of_nat (String.length s) - 1)); [lia|].
    rewrite IH by lia. simpl.
    clear. induction m as [|m IHm]; simpl; [reflexivity | now rewrite IHm].
Qed.

Lemma pad_loop (s : string) (p : nat) :
  (String.length s <= p)%nat ->
  fold_left (pad_step s) (seq 0 p) "" = zeros (p - String.length s) ++ s.
Proof.
  intros H.
  replace p with (String.length s + (p - String.length s))%nat at 1 by lia.
  rewrite seq_app, fold_left_app. simpl Nat.add.
  pose proof (pad_copy s (String.length s) O "") as E.
  replace (String.substring 0 0 s) with "" in E by (now destruct s).
  simpl in E. rewrite E by lia. rewrite substring_0_all.
  apply pad_zeros. lia.
Qed.

(** *** Decimal values *)

Lemma decimal_from_append (a b : string) (acc : Z) :
  decimal_from acc (a ++ b) = decimal_from (decimal_from acc a) b.
Proof. revert acc; induction a as [|x a IH]; intros acc; simpl; auto. Qed.

Lemma decimal_from_shift (s : string) (acc : Z) :
  decimal_from acc s
  = (acc * 10 ^ Z.of_nat (String.length s) + decimal s)%Z.
Proof.
  unfold decimal. revert acc; induction s as [|c s IH]; intros acc.
  - simpl. lia.
  - cbn [decimal_from String.length].
    rewrite (IH (acc * 10 + digit_val c)%Z), (IH (0 * 10 + digit_val c)%Z).
    rewrite Nat2Z.inj_succ, Z.pow_succ_r by lia. ring.
Qed.

Lemma decimal_append (a b : string) :
  decimal (a ++ b)
  = (decimal a * 10 ^ Z.of_nat (String.length b) + decimal b)%Z.
Proof.
  unfold decimal at 1. rewrite decimal_from_append.
  now rewrite decimal_from_shift.
Qed.

Lemma decimal_zeros (n : nat) : decimal (zeros n) = 0%Z.
Proof. unfold decimal. induction n as [|n IH]; simpl; auto. Qed.

(** *** The two branches *)

Lemma parse_long (s : string) (p : nat) :
  (p < String.length s)%nat ->
  parseFromIntString s (Z.of_nat p)
  = String.substring 0 (String.length s - p) s ++ "."
    ++ String.substring (String.length s - p) p s.
Proof.
  intros H. unfold parseFromIntString, len.
  destruct (Z.gtb_spec (Z.of_nat (String.length s)) (Z.of_nat p)); [|lia].
  replace (Z.of_nat (String.length s) - Z.of_nat p)%Z
    with (Z.of_nat (String.length s - p)) by lia.
  change 0%Z with (Z.of_nat 0).
  rewrite !js_substring_inrange by lia.
  rewrite Nat.sub_0_r. do 3 f_equal. lia.
Qed.

Lemma parse_short (s : string) (p : nat) :
  (String.length s <= p)%nat ->
  parseFromIntString s (Z.of_nat p)
  = "0" ++ "." ++ zeros (p - String.length s) ++ s.
Proof.
  intros H. unfold parseFromIntString, len.
  destruct (Z.gtb_spec (Z.of_nat (String.length s)) (Z.of_nat p)); [lia|].
  rewrite Nat2Z.id, pad_loop by assumption. reflexivity.
Qed.

(** C6.  [parseFromIntString s p] is ["<int>.<frac>"]: when [s] is
    longer than [p], [int] is [s] without its last [p] characters and
    [frac] is those [p] characters; otherwise [int] is ["0"] and [frac]
    is [s] with zeros put in front up to length [p].  In both cases
    [frac] has [p] characters, and for a string of digits
    [int * 10^p + frac] is the number [s] denotes. *)
Theorem parseFromIntString_spec (s : string) (p : nat) :
  let L := String.length s in
  ((p < L)%nat ->
     parseFromIntString s (Z.of_nat p)
     = String.substring 0 (L - p) s ++ "." ++ String.substring (L - p) p s)
  /\ ((L <= p)%nat ->
     parseFromIntString s (Z.of_nat p) = "0" ++ "." ++ zeros (p - L) ++ s)
  /\ exists int frac : string,
       parseFromIntString s (Z.of_nat p) = int ++ "." ++ frac
       /\ String.length frac = p
       /\ (decimal int * 10 ^ Z.of_nat p + decimal frac = decimal s)%Z.
Proof.
  intros L. split; [|split].
  - apply parse_long.
  - apply parse_short.
  - destruct (Nat.lt_ge_cases p L) as [H|H].
    + exists (String.substring 0 (L - p) s), (String.substring (L - p) p s).
      split; [now apply parse_long|].
      assert (Hl : String.length (String.substring (L - p) p s) = p)
        by (apply substring_length; subst L; lia).
      split; [exact Hl|].
      pose proof (decimal_append (String.substring 0 (L - p) s)
                                 (String.substring (L - p) p s)) as E.
      rewrite Hl in E. rewrite <- E.
      rewrite substring_split; [reflexivity | subst L; lia].
    + exists "0", (zeros (p - L) ++ s).
      split; [now apply parse_short|].
      split.
      * rewrite length_append, length_zeros. subst L; lia.
      * rewrite decimal_append, decimal_zeros. reflexivity.
Qed.

Lemma parseFromIntString_spec_witness :
  parseFromIntString "150000000" 8 = "1" ++ "." ++ "50000000"
  /\ parseFromIntString "42" 8 = "0" ++ "." ++ "00000042".
Proof.
  split.
  - apply (proj1 (parseFromIntString_spec "150000000" 8)). simpl. lia.
  - apply (proj1 (proj2 (parseFromIntString_spec "42" 8))). simpl. lia.
Defined.

Example parse_150000000 : parseFromIntString "150000000" 8 = "1.50000000".
Proof. reflexivity. Qed.

Example parse_42 : parseFromIntString "42" 8 = "0.00000042".
Proof. reflexivity. Qed.

Example parse_empty : parseFromIntString "" 3 = "0.000".
Proof. reflexivity. Qed.

End AmountFacts.

(** ** Rows, [find], [filter] *)

Module TableFacts.

Import Db.

Section Rows.

Context {R : Type}.
Variables (p : R -> bool) (set : R -> R).

Lemma find_some_existsb (rows : list R) (r : R) :
  find p rows = Some r -> existsb p rows = true.
Proof.
  intros H. apply existsb_exists. exists r.
  apply find_some in H. exact H.
Qed.

Lemma existsb_false_find (rows : list R) :
  existsb p rows = false -> find p rows = None.
Proof.
  intros H. destruct (find p rows) as [r|] eqn:E; [|reflexivity].
  apply find_some_existsb in E. congruence.
Qed.



Lemma filter_insert_row (rows : list R) (r : R) :
  filter p (insert_row r rows)
  = filter p rows ++ (if p r then [r] else []).
Proof. unfold insert_row. rewrite filter_app. reflexivity. Qed.

Lemma existsb_insert_row (rows : list R) (r : R) :
  existsb p (insert_row r rows) = existsb p rows || p r.
Proof.
  unfold insert_row. rewrite existsb_app. simpl.
  now rewrite orb_false_r.
Qed.


(** An update cannot be seen through a filter that the rewritten
    rows pass exactly when the original rows do, and that reads
    nothing the setter writes. *)
Lemma filter_update_other (q k : R -> bool) (rows : list R) :
  (forall r, k r = true -> q (set r) = q r) ->
  (forall r, k r = true -> q r = true -> set r = r) ->
  filter q (update_where k set rows) = filter q rows.
Proof.
  intros Hq Hs. unfold update_where.
  induction rows as [|r rows IH]; simpl; [reflexivity|].
  destruct (k r) eqn:E.
  - rewrite (Hq r E). destruct (q r) eqn:F.
    + rewrite (Hs r E F). now rewrite IH.
    + exact IH.
  - destruct (q r); now rewrite IH.
Qed.

Lemma existsb_update (q k : R -> bool) (rows : list R) :
  (forall r, q (set r) = q r) ->
  existsb q (update_where k set rows) = existsb q rows.
Proof.
  intros Hq. unfold update_where.
  induction rows as [|r rows IH]; simpl; [reflexivity|].
  rewrite IH. destruct (k r); [now rewrite Hq | reflexivity].
Qed.


Lemma in_update_where (k : R -> bool) (rows : list R) (x : R) :
  In x (update_where k set rows) ->
  exists r, In r rows /\ x = (if k r then set r else r).
Proof.
  unfold update_where. intros H. apply in_map_iff in H as (r & E & Hr).
  exists r. auto.
Qed.

Lemma find_update_where (q k : R -> bool) (rows : list R) :
  (forall r, q (set r) = q r) ->
  find q (update_where k set rows)
  = option_map (fun r => if k r then set r else r) (find q rows).
Proof.
  intros Hq. unfold update_where.
  induction rows as [|r rows IH]; simpl; [reflexivity|].
  destruct (k r) eqn:E.
  - rewrite Hq. destruct (q r); simpl; [now rewrite E | exact IH].
  - destruct (q r); simpl; [now rewrite E | exact IH].
Qed.

End Rows.

End TableFacts.

(** ** The [wallet/address] endpoint *)

Module EndpointFacts.

Import Db WalletAddressEndpoint.
Local Open Scope string_scope.

(** C10.  For a call with a credential ([me] present), let the target
    be [ps.userId] when given and the caller otherwise.  When no user
    has the target id the call fails with [noSuchUser]; when one has,
    the call returns the address of a stored row of that user if
    there is one (the first), and the empty string if there is none. *)
Theorem address_endpoint (Users : list User)
        (UserWalletAddresses : list WalletAddress) (ps : Params) (m : User) :
  let target := match ps_userId ps with
                | Some i => i
                | None => user_id m
                end in
  ((forall u, In u Users -> user_id u <> target) ->
     handler Users UserWalletAddresses ps (Some m) = inl noSuchUser)
  /\ ((exists u, In u Users /\ user_id u = target) ->
      ((exists w, In w UserWalletAddresses /\ addr_userId w = Some target) ->
         exists w, In w UserWalletAddresses
                   /\ addr_userId w = Some target
                   /\ find (owned_by target) UserWalletAddresses = Some w
                   /\ handler Users UserWalletAddresses ps (Some m)
                      = inr (addr_address w))
      /\ ((forall w, In w UserWalletAddresses -> addr_userId w <> Some target) ->
          handler Users UserWalletAddresses ps (Some m) = inr "")).
Proof.
  intros target. unfold handler. fold target. split.
  - intros Hno.
    destruct (find (has_id target) Users) as [u|] eqn:E; [|reflexivity].
    apply find_some in E as [Hin Hid]. unfold has_id in Hid.
    apply String.eqb_eq in Hid. now apply Hno in Hin.
  - intros (u & Hin & Hid).
    destruct (find (has_id target) Users) as [u'|] eqn:E.
    + apply find_some in E as [_ Hid']. unfold has_id in Hid'.
      apply String.eqb_eq in Hid'. rewrite Hid'. split.
      * intros (w & Hw & Ho).
        destruct (find (owned_by target) UserWalletAddresses) as [w'|] eqn:F.
        -- exists w'. pose proof (find_some _ _ F) as [Hin' Ho'].
           unfold owned_by in Ho'.
           destruct (addr_userId w') as [v|] eqn:G; [|discriminate].
           apply String.eqb_eq in Ho'. subst v. auto.
        -- exfalso. pose proof (find_none _ _ F w Hw) as N.
           unfold owned_by in N. rewrite Ho, String.eqb_refl in N.
           discriminate.
      * intros Hnone.
        destruct (find (owned_by target) UserWalletAddresses) as [w'|] eqn:F;
          [|reflexivity].
        exfalso. apply find_some in F as [Hin' Ho'].
        unfold owned_by in Ho'.
        destruct (addr_userId w') as [v|] eqn:G; [|discriminate].
        apply String.eqb_eq in Ho'. subst v. exact (Hnone w' Hin' G).
    + exfalso. pose proof (find_none _ _ E u Hin) as N.
      unfold has_id in N. rewrite Hid, String.eqb_refl in N. discriminate.
Qed.

Lemma address_endpoint_witness :
  handler [mkUser "U1"] [mkAddress "A1" (Some "U1")]
          (mkParams None None None) (Some (mkUser "U1")) = inr "A1"
  /\ handler [mkUser "U1"] [] (mkParams (Some "U1") None None)
             (Some (mkUser "U9")) = inr ""
  /\ handler [mkUser "U1"] [] (mkParams (Some "U2") None None)
             (Some (mkUser "U1")) = inl noSuchUser.
Proof.
  split; [|split].
  - destruct (proj1 (proj2 (address_endpoint [mkUser "U1"]
                [mkAddress "A1" (Some "U1")] (mkParams None None None)
                (mkUser "U1"))
              (ex_intro _ (mkUser "U1") (conj (or_introl eq_refl) eq_refl)))
              (ex_intro _ (mkAddress "A1" (Some "U1"))
                 (conj (or_introl eq_refl) eq_refl)))
      as (w & _ & _ & F & H).
    rewrite H. simpl in F. injection F as <-. reflexivity.
  - apply (proj2 (address_endpoint [mkUser "U1"] []
             (mkParams (Some "U1") None None) (mkUser "U9"))).
    + exists (mkUser "U1"). simpl. auto.
    + intros w [].
  - apply (proj1 (address_endpoint [mkUser "U1"] []
             (mkParams (Some "U2") None None) (mkUser "U1"))).
    intros u [<-|[]]. simpl. discriminate.
Defined.

End EndpointFacts.

(** ** The HEARTBEAT handler *)

Module HeartbeatFacts.

Import Db Broker Ledger TableFacts.
Local Open Scope string_scope.

Section Upsert.

Variable updatedAt_default : Z -> Z.
Variables (now : Z) (json : Heartbeat) (db : DB).

Let after : DB := db_of (heartbeat updatedAt_default now json db).

Lemma heartbeat_replies :
  outcome_of (heartbeat updatedAt_default now json db)
  = Returned "Recieved HEARTBEAT".
Proof.
  unfold heartbeat, bind, gets, modify, ret, outcome_of. simpl.
  destruct (existsb (has_type (h_coin json)) (statuses db)); reflexivity.
Qed.




End Upsert.



End HeartbeatFacts.

(** ** Reasoning on handlers *)

Module MonadFacts.

Import Db Broker Ledger.

Section Keeps.

Variable I : DB -> Prop.

Lemma keeps_ret {A : Type} (a : A) : keeps I (ret a).
Proof. intros db H. exact H. Qed.

Lemma keeps_bind {A B : Type} (m : M A) (k : A -> M B) :
  keeps I m -> (forall a, keeps I (k a)) -> keeps I (bind m k).
Proof.
  intros Hm Hk db H. unfold bind, db_of.
  specialize (Hm db H). unfold db_of in Hm.
  destruct (m db) as [db' [a|e]]; simpl in *.
  - apply (Hk a db' Hm).
  - exact Hm.
Qed.

Lemma keeps_forEach {A : Type} (body : A -> M unit) (l : list A) :
  (forall x, keeps I (body x)) -> keeps I (forEach body l).
Proof.
  intros Hb. induction l as [|x l IH]; simpl.
  - apply keeps_ret.
  - apply keeps_bind; [apply Hb | intros _; exact IH].
Qed.

End Keeps.

End MonadFacts.

(** ** The NOTIFY handler: how it runs *)

Module NotifyRun.

Import JsNumber Db Broker Ledger TableFacts MonadFacts.
Local Open Scope string_scope.

Lemma find_app_none {R : Type} (p : R -> bool) (rows : list R) (r : R) :
  existsb p rows = false ->
  find p (insert_row r rows) = if p r then Some r else None.
Proof.
  unfold insert_row. induction rows as [|x rows IH]; simpl; [reflexivity|].
  intros H. apply orb_false_iff in H as [H1 H2]. rewrite H1. auto.
Qed.

Lemma existsb_true_find {R : Type} (p : R -> bool) (rows : list R) :
  existsb p rows = true -> exists r, find p rows = Some r.
Proof.
  induction rows as [|x rows IH]; simpl; [discriminate|].
  destruct (p x); [eauto | exact IH].
Qed.

Lemma has_txid_set_confirms (t : string) (c : Z) (r : WalletTx) :
  has_txid t (set_confirms c r) = has_txid t r.
Proof. reflexivity. Qed.

Section Run.

Variable unique_credit : bool.
Variables (rxData : string) (json : Notify).

Let T : string := n_txid json.
Let c : Z := n_confirmations json.

(** A row without [userId] never trips the unique index. *)
Lemma insert_tx_null_user (r : WalletTx) (db : DB) :
  tx_userId r = None ->
  insert_tx unique_credit r db = (with_txs (insert_row r) db, Returned tt).
Proof.
  intros H. unfold insert_tx.
  assert (E : existsb (same_credit_key r) (txs db) = false).
  { induction (txs db) as [|x l IH]; simpl; [reflexivity|].
    rewrite IH. unfold same_credit_key. rewrite H.
    now rewrite andb_false_r. }
  rewrite E, andb_false_r. reflexivity.
Qed.

Lemma upsert_tx_run (db : DB) :
  upsert_tx unique_credit json (existsb (has_txid T) (txs db)) db
  = (upserted json db, Returned tt).
Proof.
  unfold upsert_tx, upserted. fold T.
  destruct (existsb (has_txid T) (txs db)); simpl.
  - reflexivity.
  - now apply insert_tx_null_user.
Qed.

(** After the upsert the transaction has a row, and [getOne] finds
    one. *)
Lemma upserted_find (db : DB) :
  exists t, find (has_txid T) (txs (upserted json db)) = Some t.
Proof.
  unfold upserted. fold T c.
  destruct (existsb (has_txid T) (txs db)) eqn:E; simpl.
  - rewrite find_update_where by (intros; apply has_txid_set_confirms).
    destruct (existsb_true_find _ _ E) as [t Ht]. rewrite Ht. simpl. eauto.
  - rewrite (find_app_none _ _ _ E). unfold has_txid, first_row. simpl.
    subst T. rewrite String.eqb_refl. eauto.
Qed.

Lemma upserted_completed (db : DB) :
  completed T (upserted json db) = completed T db.
Proof.
  unfold completed, upserted. fold T c.
  destruct (existsb (has_txid T) (txs db)) eqn:E; simpl.
  - rewrite find_update_where by (intros; apply has_txid_set_confirms).
    destruct (find (has_txid T) (txs db)) as [t|]; simpl; [|reflexivity].
    destruct (has_txid T t); reflexivity.
  - rewrite (find_app_none _ _ _ E), (existsb_false_find _ _ E).
    unfold has_txid, first_row. simpl. subst T.
    now rewrite String.eqb_refl.
Qed.

(** Once a job row exists, the loop over [json.balances] only
    rewrites job rows, and does not throw. *)
Lemma attribute_run (bals : list BalanceEntry) :
  forall (users : Users) (db : DB),
  exists db' us,
    attribute rxData json true bals users db = (db', Returned us)
    /\ txs db' = txs db /\ balances db' = balances db
    /\ addresses db' = addresses db /\ statuses db' = statuses db
    /\ map job_job (jobs db') = map job_job (jobs db).
Proof.
  induction bals as [|bal rest IH]; intros users db; simpl.
  - exists db, users. unfold ret. auto 10.
  - unfold bind at 1, gets at 1.
    destruct (find (has_address (b_address bal)) (addresses db)) as [a|];
      [destruct (addr_userId a) as [uid|]|]; try apply IH.
    change (negb true) with false. cbv iota.
    unfold bind at 1, modify at 1.
    destruct (IH (map_set (addr_address a) (mkEntry uid (b_balance bal)) users)
                 (with_jobs (update_where (has_job (n_txid json))
                               (set_job_processed uid)) db))
      as (db' & us & E & H1 & H2 & H3 & H4 & H5).
    exists db', us. rewrite E. simpl in *.
    repeat split; try assumption.
    rewrite H5. unfold update_where. rewrite map_map.
    apply map_ext. intros j. destruct (has_job (n_txid json) j); reflexivity.
Qed.

Lemma notify_no_job (db : DB) :
  job_exists T db = false ->
  notify unique_credit rxData json db = (db, Thrown (ReferenceError "tx")).
Proof.
  unfold job_exists. intros H. unfold notify.
  unfold bind at 1, gets at 1. fold T. rewrite H.
  unfold bind at 1, gets at 1. reflexivity.
Qed.

(** With a job row the handler goes on to the upsert and to "Check
    Job". *)
Lemma notify_job (db : DB) :
  job_exists T db = true ->
  notify unique_credit rxData json db
  = bind (tx <- gets (fun d => find (has_txid T) (txs d)) ;;
          check_job unique_credit rxData json true tx)
         (fun _ => ret "Recieved NOTIFY") (upserted json db).
Proof.
  unfold job_exists. intros H. unfold notify, bind, gets.
  fold T. rewrite H. unfold create_job.
  change (negb true) with false. cbv iota.
  unfold ret at 1. cbv beta iota. rewrite upsert_tx_run. reflexivity.
Qed.

(** The transaction is complete already, or the confirmations are
    below 3: only the upsert happens. *)
Lemma notify_skip (db : DB) :
  job_exists T db = true ->
  completed T db = true \/ (c < 3)%Z ->
  notify unique_credit rxData json db
  = (upserted json db, Returned "Recieved NOTIFY").
Proof.
  intros Hj Hs. rewrite (notify_job _ Hj).
  rewrite <- upserted_completed in Hs. unfold completed in Hs.
  unfold bind, gets. fold T.
  destruct (find (has_txid T) (txs (upserted json db))) as [t|]; simpl.
  - fold c. destruct Hs as [Hs|Hs].
    + rewrite Hs. reflexivity.
    + replace (c >=? 3)%Z with false by (symmetry; rewrite Z.geb_leb; lia).
      rewrite andb_false_r. reflexivity.
  - reflexivity.
Qed.

(** The crediting branch: jobs are attributed, the rows of the
    transaction are finalized, then the users are credited in the
    order of the [users] map. *)
Lemma notify_credit (db : DB) :
  job_exists T db = true ->
  completed T db = false ->
  (3 <= c)%Z ->
  exists db_b users,
    attribute rxData json true (n_balances json) [] (upserted json db)
    = (db_b, Returned users)
    /\ txs db_b = txs (upserted json db)
    /\ balances db_b = balances db
    /\ map job_job (jobs db_b) = map job_job (jobs db)
    /\ notify unique_credit rxData json db
       = bind (forEach (credit unique_credit json) users)
              (fun _ => ret "Recieved NOTIFY") (finalized json db_b).
Proof.
  intros Hj Hc H3.
  destruct (attribute_run (n_balances json) [] (upserted json db))
    as (db_b & users & E & H1 & H2 & _ & _ & H5).
  exists db_b, users. split; [exact E|]. split; [exact H1|].
  assert (Hb : balances (upserted json db) = balances db).
  { unfold upserted. destruct (existsb _ _); reflexivity. }
  assert (Hjb : jobs (upserted json db) = jobs db).
  { unfold upserted. destruct (existsb _ _); reflexivity. }
  split; [congruence|]. split; [congruence|].
  rewrite (notify_job _ Hj).
  rewrite <- upserted_completed in Hc. unfold completed in Hc.
  destruct (upserted_find db) as [t Ht]. rewrite Ht in Hc.
  unfold bind, gets. rewrite Ht.
  unfold check_job. rewrite Hc. fold c.
  replace (c >=? 3)%Z with true by (symmetry; rewrite Z.geb_leb; lia).
  change (negb false && true) with true. cbv iota.
  unfold bind. rewrite E.
  unfold modify, finalized. reflexivity.
Qed.

End Run.

End NotifyRun.

(** ** The crediting loop *)

Module CreditFacts.

Import JsNumber Db Broker Ledger TableFacts MonadFacts NotifyRun.
Local Open Scope string_scope.

Lemma db_of_bind_ret {A B : Type} (m : M A) (b : B) (db : DB) :
  db_of (bind m (fun _ => ret b) db) = db_of (m db).
Proof. unfold bind, ret, db_of. destruct (m db) as [d [a|e]]; reflexivity. Qed.

Section Credit.

Variable unique_credit : bool.
Variable json : Notify.

(** The three ways one turn of the loop can end: the insert is
    rejected; the insert is done and the user has no balance row;
    the insert is done and the balance is raised. *)
Lemma credit_run (kv : string * UserEntry) (db : DB) :
  let uid := e_userId (snd kv) in
  let inserted := with_txs (insert_row (credit_row json kv)) db in
  (unique_credit = true
   /\ existsb (same_credit_key (credit_row json kv)) (txs db) = true
   /\ credit unique_credit json kv db
      = (db, Thrown (QueryFailedError "user_wallet_tx(txid, txtype, userId)")))
  \/ (find (has_user uid) (balances db) = None
      /\ credit unique_credit json kv db
         = (inserted,
            Thrown (TypeError
              "Cannot read properties of undefined (reading 'balance')")))
  \/ (exists row,
         find (has_user uid) (balances db) = Some row
         /\ credit unique_credit json kv db
            = (with_balances
                 (update_where (has_user uid)
                    (set_balance (add (bal_balance row) (credit_amount kv))))
                 inserted,
               Returned tt)).
Proof.
  intros uid inserted.
  assert (E0 : credit unique_credit json kv db
               = if unique_credit
                    && existsb (same_credit_key (credit_row json kv)) (txs db)
                 then (db, Thrown (QueryFailedError
                             "user_wallet_tx(txid, txtype, userId)"))
                 else match find (has_user uid) (balances db) with
                      | Some row =>
                          (with_balances
                             (update_where (has_user uid)
                                (set_balance (add (bal_balance row)
                                                  (credit_amount kv))))
                             inserted, Returned tt)
                      | None =>
                          (inserted, Thrown (TypeError
                             "Cannot read properties of undefined (reading 'balance')"))
                      end).
  { unfold credit, bind, insert_tx, gets, modify, throw.
    change (existsb (same_credit_key (credit_row json kv)) (txs db))
      with (existsb (same_credit_key
              (mkTx (Some (e_userId (snd kv))) (n_txid json) (fst kv) 0 3
                 (n_confirmations json) true
                 (ProcessedEntry (e_userId (snd kv)) (e_balance (snd kv)))
                 (Some (parseFloat (Amount.parseFromIntString
                                      (e_balance (snd kv)) 8)))))
              (txs db)).
    destruct (unique_credit && _); [reflexivity|].
    subst uid.
    match goal with
    | |- context [find ?q (balances ?d)] =>
        change (balances d) with (balances db)
    end.
    destruct (find (has_user (e_userId (snd kv))) (balances db));
      reflexivity. }
  rewrite E0.
  destruct (unique_credit
            && existsb (same_credit_key (credit_row json kv)) (txs db))
    eqn:E.
  - left. apply andb_true_iff in E as [E1 E2]. auto.
  - right. destruct (find (has_user uid) (balances db)) as [row|] eqn:F.
    + right. exists row. split; reflexivity.
    + left. split; reflexivity.
Qed.

(** A property that the insert of a credit row keeps and that does
    not read the balances is kept by the loop. *)
Lemma credit_keeps (I : DB -> Prop) (kv : string * UserEntry) :
  (forall db, I db -> I (with_txs (insert_row (credit_row json kv)) db)) ->
  (forall db f, I db -> I (with_balances f db)) ->
  keeps I (credit unique_credit json kv).
Proof.
  intros Hi Hb db H.
  destruct (credit_run kv db) as [(_ & _ & E)|[(_ & E)|(row & _ & E)]];
    rewrite E; unfold db_of; simpl; auto.
Qed.

Lemma credits_keep (I : DB -> Prop) (users : Users) :
  (forall kv db, I db -> I (with_txs (insert_row (credit_row json kv)) db)) ->
  (forall db f, I db -> I (with_balances f db)) ->
  keeps I (forEach (credit unique_credit json) users).
Proof.
  intros Hi Hb. apply keeps_forEach. intros kv.
  apply credit_keeps; auto.
Qed.

End Credit.

(** *** What the inserts and updates of the handler keep *)

Lemma in_insert_row {R : Type} (r x : R) (rows : list R) :
  In x (insert_row r rows) -> In x rows \/ x = r.
Proof.
  unfold insert_row. intros H. apply in_app_or in H as [H|[H|[]]]; auto.
Qed.

Lemma rows_confirm_credit (json : Notify) (kv : string * UserEntry) (db : DB) :
  rows_confirm (n_txid json) (n_confirmations json) db ->
  rows_confirm (n_txid json) (n_confirmations json)
               (with_txs (insert_row (credit_row json kv)) db).
Proof.
  intros H r Hin Ht. simpl in Hin. apply in_insert_row in Hin as [Hin | ->].
  - now apply H.
  - reflexivity.
Qed.

Lemma rows_complete_credit (t : string) (json : Notify)
      (kv : string * UserEntry) (db : DB) :
  rows_complete t db ->
  rows_complete t (with_txs (insert_row (credit_row json kv)) db).
Proof.
  intros H r Hin Ht. simpl in Hin. apply in_insert_row in Hin as [Hin | ->].
  - now apply H.
  - reflexivity.
Qed.

Lemma rows_confirm_finalized (json : Notify) (db : DB) :
  rows_confirm (n_txid json) (n_confirmations json) (finalized json db).
Proof.
  intros r Hin Ht. simpl in Hin.
  apply in_update_where in Hin as (r0 & _ & ->).
  destruct (has_txid (n_txid json) r0) eqn:E; [reflexivity|].
  congruence.
Qed.

Lemma rows_complete_finalized (json : Notify) (db : DB) :
  rows_complete (n_txid json) (finalized json db).
Proof.
  intros r Hin Ht. simpl in Hin.
  apply in_update_where in Hin as (r0 & _ & ->).
  destruct (has_txid (n_txid json) r0) eqn:E; [reflexivity|].
  congruence.
Qed.

Lemma rows_confirm_upserted (json : Notify) (db : DB) :
  rows_confirm (n_txid json) (n_confirmations json) (upserted json db).
Proof.
  unfold upserted.
  destruct (existsb (has_txid (n_txid json)) (txs db)) eqn:E;
    intros r Hin Ht; simpl in Hin.
  - apply in_update_where in Hin as (r0 & _ & ->).
    destruct (has_txid (n_txid json) r0) eqn:F; [reflexivity|congruence].
  - apply in_insert_row in Hin as [Hin | ->]; [|reflexivity].
    exfalso. assert (existsb (has_txid (n_txid json)) (txs db) = true)
      by (apply existsb_exists; eauto).
    congruence.
Qed.



Lemma completed_of_rows (t : string) (db : DB) :
  existsb (has_txid t) (txs db) = true ->
  rows_complete t db ->
  completed t db = true.
Proof.
  intros E H. unfold completed.
  destruct (existsb_true_find _ _ E) as [r Hr]. rewrite Hr.
  apply find_some in Hr as [Hin Ht]. now apply H.
Qed.

End CreditFacts.

(** ** The NOTIFY handler: confirmations and redelivery *)

Module NotifyFacts.

Import JsNumber Db Broker Ledger TableFacts MonadFacts NotifyRun CreditFacts.
Local Open Scope string_scope.

Lemma job_exists_names (t : string) (a b : DB) :
  map job_job (jobs a) = map job_job (jobs b) ->
  job_exists t a = job_exists t b.
Proof.
  unfold job_exists, has_job. intros H.
  assert (E : forall js, existsb (fun j => String.eqb (job_job j) t) js
                         = existsb (fun s => String.eqb s t) (map job_job js)).
  { induction js as [|j js IH]; simpl; [reflexivity | now rewrite IH]. }
  now rewrite !E, H.
Qed.

Lemma upserted_has_row (json : Notify) (db : DB) :
  existsb (has_txid (n_txid json)) (txs (upserted json db)) = true.
Proof.
  destruct (upserted_find json db) as [t Ht].
  exact (find_some_existsb _ _ Ht).
Qed.

Lemma upserted_jobs (json : Notify) (db : DB) :
  jobs (upserted json db) = jobs db.
Proof. unfold upserted. destruct (existsb _ _); reflexivity. Qed.

Lemma upserted_balances (json : Notify) (db : DB) :
  balances (upserted json db) = balances db.
Proof. unfold upserted. destruct (existsb _ _); reflexivity. Qed.

Section Delivery.

Variable unique_credit : bool.
Variables (rxData : string) (json : Notify).

Let T : string := n_txid json.
Let c : Z := n_confirmations json.
Let after (db : DB) : DB := after_notify unique_credit rxData json db.

(** The three courses a delivery takes. *)
Lemma after_notify_cases (db : DB) :
  (job_exists T db = false /\ after db = db)
  \/ (job_exists T db = true
      /\ (completed T db = true \/ (c < 3)%Z)
      /\ notify unique_credit rxData json db
         = (upserted json db, Returned "Recieved NOTIFY"))
  \/ (job_exists T db = true
      /\ completed T db = false /\ (3 <= c)%Z
      /\ exists db_b users,
           txs db_b = txs (upserted json db)
           /\ balances db_b = balances db
           /\ map job_job (jobs db_b) = map job_job (jobs db)
           /\ after db
              = db_of (forEach (credit unique_credit json) users
                         (finalized json db_b))).
Proof.
  destruct (job_exists T db) eqn:Hj.
  - right. destruct (completed T db) eqn:Hc.
    + left. split; [reflexivity|]. split; [auto|].
      apply notify_skip; auto.
    + destruct (Z_lt_ge_dec c 3) as [Hlt|Hge].
      * left. split; [reflexivity|]. split; [auto|].
        apply notify_skip; auto.
      * right. split; [reflexivity|]. split; [reflexivity|].
        split; [lia|].
        destruct (notify_credit unique_credit rxData json db Hj Hc)
          as (db_b & users & _ & H1 & H2 & H3 & E); [subst c; lia|].
        exists db_b, users. repeat split; try assumption.
        subst after. unfold after_notify. rewrite E.
        apply db_of_bind_ret.
  - left. split; [reflexivity|]. subst after. unfold after_notify.
    now rewrite notify_no_job.
Qed.

(** After a crediting delivery the transaction has rows, each with
    the delivered [confirms], all complete, and its job row is still
    there. *)
Lemma credited_state (db_b : DB) (users : Users) :
  let db' := db_of (forEach (credit unique_credit json) users
                      (finalized json db_b)) in
  existsb (has_txid T) (txs db_b) = true ->
  rows_confirm T c db' /\ rows_complete T db'
  /\ existsb (has_txid T) (txs db') = true
  /\ jobs db' = jobs db_b.
Proof.
  intros db' Hrow. subst db'. repeat split.
  - apply credits_keep.
    + intros kv d. apply rows_confirm_credit.
    + intros d f H. exact H.
    + apply rows_confirm_finalized.
  - apply credits_keep.
    + intros kv d. apply rows_complete_credit.
    + intros d f H. exact H.
    + apply rows_complete_finalized.
  - apply (credits_keep unique_credit json
             (fun d => existsb (has_txid T) (txs d) = true)).
    + intros kv d H. simpl. rewrite existsb_insert_row, H. reflexivity.
    + intros d f H. exact H.
    + simpl. rewrite existsb_update by (intros; reflexivity). exact Hrow.
  - apply (credits_keep unique_credit json (fun d => jobs d = jobs db_b)).
    + intros kv d H. exact H.
    + intros d f H. exact H.
    + reflexivity.
Qed.

Lemma after_confirms (db : DB) :
  job_exists T db = true ->
  rows_confirm T c (after db)
  /\ existsb (has_txid T) (txs (after db)) = true.
Proof.
  intros Hj.
  destruct (after_notify_cases db)
    as [(Hn & _)|[(_ & _ & E)|(_ & _ & _ & db_b & users & H1 & _ & _ & E)]].
  - congruence.
  - subst after. unfold after_notify. rewrite E. unfold db_of. simpl. split.
    + apply rows_confirm_upserted.
    + apply upserted_has_row.
  - rewrite E.
    destruct (credited_state db_b users) as (A & _ & B & _).
    + rewrite H1. apply upserted_has_row.
    + auto.
Qed.


End Delivery.

(** C2, as the code has it.  When the job row of the transaction
    exists, a NOTIFY leaves every row of the transaction, and the one
    [getOne] finds, with [confirms] equal to the confirmations it
    delivered, whatever was stored before: no maximum is taken. *)
Theorem notify_overwrites_confirms (unique_credit : bool) (rxData : string)
        (json : Notify) (db : DB) :
  job_exists (n_txid json) db = true ->
  let db' := after_notify unique_credit rxData json db in
  rows_confirm (n_txid json) (n_confirmations json) db'
  /\ exists t, find (has_txid (n_txid json)) (txs db') = Some t
               /\ tx_confirms t = n_confirmations json.
Proof.
  intros Hj db'.
  destruct (after_confirms unique_credit rxData json db Hj) as [A B].
  split; [exact A|].
  destruct (existsb_true_find _ _ B) as [t Ht].
  exists t. split; [exact Ht|].
  apply find_some in Ht as [Hin Hm]. now apply A.
Qed.

Lemma notify_overwrites_confirms_witness :
  exists t,
    find (has_txid "T1")
         (txs (after_notify false "" (Scenario.notify_T1 2)
                 (Scenario.db_confirmed 5))) = Some t
    /\ tx_confirms t = 2%Z.
Proof.
  apply (proj2 (notify_overwrites_confirms false "" (Scenario.notify_T1 2)
                  (Scenario.db_confirmed 5) eq_refl)).
Defined.

(** C2 fails on the code: with the job row of T1 present, delivering
    [confirmations: 5] and then [confirmations: 2] leaves [confirms]
    at 2, below the 5 stored in between, with or without the unique
    index. *)
Lemma confirms_regress :
  Scenario.confirms_5_then_2 false = (Some 5%Z, Some 2%Z)
  /\ Scenario.confirms_5_then_2 true = (Some 5%Z, Some 2%Z)
  /\ snd (Scenario.confirms_5_then_2 false) <> Some (Z.max 5 2)
  /\ snd (Scenario.confirms_5_then_2 true) <> Some (Z.max 5 2).
Proof. vm_compute. repeat split; discriminate. Qed.

Lemma map_forget_update (k : WalletTx -> bool) (c : Z) (rows : list WalletTx) :
  map forget_confirms (update_where k (set_confirms c) rows)
  = map forget_confirms rows.
Proof.
  unfold update_where. rewrite map_map. apply map_ext.
  intros r. destruct (k r); reflexivity.
Qed.



End NotifyFacts.

(** ** Credit rows are inserted by one delivery *)

Module CreditOnce.

Import JsNumber Db Broker Ledger TableFacts MonadFacts NotifyRun CreditFacts
       NotifyFacts.
Local Open Scope string_scope.

Lemma find_head {R : Type} (p : R -> bool) (rows : list R) :
  find p rows = hd_error (filter p rows).
Proof.
  induction rows as [|r rows IH]; simpl; [reflexivity|].
  destruct (p r); [reflexivity | exact IH].
Qed.

Lemma filter_update_commute {R : Type} (q k : R -> bool) (set : R -> R)
      (rows : list R) :
  (forall r, q (set r) = q r) ->
  filter q (update_where k set rows) = update_where k set (filter q rows).
Proof.
  intros Hq. unfold update_where.
  induction rows as [|r rows IH]; simpl; [reflexivity|].
  destruct (k r) eqn:E.
  - rewrite Hq. destruct (q r); simpl; [now rewrite E, IH | exact IH].
  - destruct (q r); simpl; [now rewrite E, IH | exact IH].
Qed.

Lemma completed_rows (t : string) (db : DB) :
  completed t db = match rows_of t db with
                   | r :: _ => tx_complete r
                   | [] => false
                   end.
Proof.
  unfold completed, rows_of. rewrite find_head.
  destruct (filter (has_txid t) (txs db)); reflexivity.
Qed.

Lemma credit_rows_rows (t : string) (db : DB) :
  credit_rows t db = filter (fun r => Z.eqb (tx_txtype r) 3) (rows_of t db).
Proof.
  unfold credit_rows, rows_of, is_credit_of.
  induction (txs db) as [|r rows IH]; simpl; [reflexivity|].
  destruct (has_txid t r); simpl; [|exact IH].
  destruct (Z.eqb (tx_txtype r) 3); now rewrite IH.
Qed.

Lemma has_txid_other (t t' : string) (r : WalletTx) :
  t' <> t -> has_txid t' r = true -> has_txid t r = false.
Proof.
  unfold has_txid. intros Hne H. apply String.eqb_eq in H.
  apply String.eqb_neq. congruence.
Qed.

(** Updates keyed by another transaction cannot be seen in the rows of
    [t]. *)
Lemma rows_of_update_other (t t' : string) (set : WalletTx -> WalletTx)
      (db : DB) :
  t' <> t ->
  (forall r, tx_txid (set r) = tx_txid r) ->
  rows_of t (with_txs (update_where (has_txid t') set) db) = rows_of t db.
Proof.
  intros Hne Hset. unfold rows_of. simpl.
  apply filter_update_other.
  - intros r _. unfold has_txid. now rewrite Hset.
  - intros r Hk Hq. rewrite (@has_txid_other t t' r Hne Hk) in Hq. discriminate.
Qed.

Lemma rows_of_insert_other (t : string) (r : WalletTx) (db : DB) :
  tx_txid r <> t ->
  rows_of t (with_txs (insert_row r) db) = rows_of t db.
Proof.
  intros Hne. unfold rows_of. simpl. rewrite filter_insert_row.
  unfold has_txid at 2. apply String.eqb_neq in Hne. rewrite Hne.
  apply app_nil_r.
Qed.

Section Frame.

Variable unique_credit : bool.
Variables (rxData : string) (json : Notify).

Lemma rows_of_upserted_other (t : string) (db : DB) :
  n_txid json <> t -> rows_of t (upserted json db) = rows_of t db.
Proof.
  intros Hne. unfold upserted.
  destruct (existsb (has_txid (n_txid json)) (txs db)).
  - apply rows_of_update_other; [exact Hne | reflexivity].
  - apply rows_of_insert_other. exact Hne.
Qed.

(** A NOTIFY for another transaction leaves the rows of [t] as they
    are. *)
Lemma after_notify_other (t : string) (db : DB) :
  n_txid json <> t ->
  rows_of t (after_notify unique_credit rxData json db) = rows_of t db.
Proof.
  intros Hne.
  destruct (after_notify_cases unique_credit rxData json db)
    as [(_ & E)|[(_ & _ & E)|(_ & _ & _ & db_b & users & H1 & _ & _ & E)]].
  - now rewrite E.
  - unfold after_notify. rewrite E. unfold db_of. simpl.
    now apply rows_of_upserted_other.
  - rewrite E.
    apply (credits_keep unique_credit json
             (fun d => rows_of t d = rows_of t db)).
    + intros kv d H. rewrite rows_of_insert_other; [exact H | exact Hne].
    + intros d f H. exact H.
    + unfold finalized.
      rewrite rows_of_update_other; [|exact Hne|reflexivity].
      unfold rows_of. rewrite H1.
      now apply rows_of_upserted_other.
Qed.

(** Once the transaction is complete, a NOTIFY for it leaves it
    complete and rewrites at most the [confirms] of its rows. *)
Lemma after_notify_completed_same (db : DB) :
  completed (n_txid json) db = true ->
  completed (n_txid json) (after_notify unique_credit rxData json db) = true
  /\ map forget_confirms
         (credit_rows (n_txid json)
                      (after_notify unique_credit rxData json db))
     = map forget_confirms (credit_rows (n_txid json) db).
Proof.
  intros Hc.
  destruct (after_notify_cases unique_credit rxData json db)
    as [(_ & E)|[(_ & _ & E)|(_ & Hn & _)]]; [| |congruence].
  - rewrite E. auto.
  - unfold after_notify. rewrite E. unfold db_of. simpl. split.
    + now rewrite upserted_completed.
    + assert (Hrow : existsb (has_txid (n_txid json)) (txs db) = true).
      { unfold completed in Hc.
        destruct (find (has_txid (n_txid json)) (txs db)) eqn:F;
          [exact (find_some_existsb _ _ F) | discriminate]. }
      unfold upserted. rewrite Hrow. unfold credit_rows. simpl.
      rewrite filter_update_commute by (intros; reflexivity).
      apply map_forget_update.
Qed.

Lemma after_notify_completed (t : string) (db : DB) :
  completed t db = true ->
  completed t (after_notify unique_credit rxData json db) = true
  /\ map forget_confirms
         (credit_rows t (after_notify unique_credit rxData json db))
     = map forget_confirms (credit_rows t db).
Proof.
  intros Hc. destruct (String.eqb_spec (n_txid json) t) as [<-|Hne].
  - now apply after_notify_completed_same.
  - rewrite completed_rows, !credit_rows_rows in *.
    rewrite (after_notify_other db Hne). auto.
Qed.

(** A delivery that adds credit rows leaves the transaction
    complete. *)
Lemma after_notify_grows (db : DB) :
  (length (credit_rows (n_txid json) db)
   < length (credit_rows (n_txid json)
               (after_notify unique_credit rxData json db)))%nat ->
  completed (n_txid json) db = false
  /\ completed (n_txid json) (after_notify unique_credit rxData json db)
     = true.
Proof.
  intros Hlt. split.
  - destruct (completed (n_txid json) db) eqn:Hc; [|reflexivity].
    destruct (after_notify_completed_same db Hc) as [_ E].
    apply (f_equal (@length _)) in E. rewrite !length_map in E. lia.
  - destruct (after_notify_cases unique_credit rxData json db)
      as [(_ & E)|[(_ & _ & E)|(_ & _ & _ & db_b & users & H1 & _ & _ & E)]].
    + rewrite E in Hlt. lia.
    + exfalso. unfold after_notify in Hlt. rewrite E in Hlt.
      unfold db_of in Hlt. simpl in Hlt.
      unfold upserted, credit_rows in Hlt.
      destruct (existsb (has_txid (n_txid json)) (txs db)); simpl in Hlt.
      * rewrite filter_update_commute in Hlt by (intros; reflexivity).
        unfold update_where in Hlt. rewrite length_map in Hlt. lia.
      * rewrite filter_insert_row in Hlt.
        unfold is_credit_of at 3 in Hlt. simpl in Hlt.
        rewrite andb_false_r, app_nil_r in Hlt. lia.
    + rewrite E.
      destruct (credited_state unique_credit json db_b users) as (_ & B & C & _).
      * rewrite H1. apply upserted_has_row.
      * now apply completed_of_rows.
Qed.

End Frame.

Lemma deliver_all_completed (unique_credit : bool) (t : string)
      (msgs : list (string * Notify)) :
  forall db,
    completed t db = true ->
    completed t (deliver_all unique_credit msgs db) = true
    /\ map forget_confirms (credit_rows t (deliver_all unique_credit msgs db))
       = map forget_confirms (credit_rows t db).
Proof.
  induction msgs as [|[rx n] msgs IH]; intros db Hc; simpl.
  - auto.
  - destruct (after_notify_completed unique_credit rx n t db Hc) as [A B].
    destruct (IH _ A) as [C D]. split; [exact C|].
    now rewrite D.
Qed.

(** C1, as the code has it.  A delivery that adds credit (type-3) rows
    for its transaction found the transaction not complete, leaves it
    complete, and no sequence of later NOTIFY deliveries adds, removes
    or changes a credit row of that transaction, but for the [confirms]
    column.  More generally, from a database where a transaction is
    complete no sequence of deliveries touches its credit rows, but for
    [confirms].  So the credit rows of a transaction are all inserted
    by one delivery. *)
Theorem credit_rows_inserted_once (unique_credit : bool) (rxData : string)
        (json : Notify) (msgs : list (string * Notify)) (db : DB) (t : string) :
  let db1 := after_notify unique_credit rxData json db in
  ((length (credit_rows (n_txid json) db)
    < length (credit_rows (n_txid json) db1))%nat ->
     completed (n_txid json) db = false
     /\ completed (n_txid json) db1 = true
     /\ map forget_confirms
            (credit_rows (n_txid json) (deliver_all unique_credit msgs db1))
        = map forget_confirms (credit_rows (n_txid json) db1))
  /\ (completed t db = true ->
      completed t (deliver_all unique_credit msgs db) = true
      /\ map forget_confirms (credit_rows t (deliver_all unique_credit msgs db))
         = map forget_confirms (credit_rows t db)).
Proof.
  intros db1. split.
  - intros Hlt.
    destruct (after_notify_grows unique_credit rxData json db Hlt) as [A B].
    split; [exact A|]. split; [exact B|].
    now apply deliver_all_completed.
  - apply deliver_all_completed.
Qed.

Lemma credit_rows_inserted_once_witness :
  completed "T1" (Scenario.db_confirmed 3) = true
  /\ map forget_confirms
         (credit_rows "T1"
            (deliver_all false Scenario.later_deliveries
                         (Scenario.db_confirmed 3)))
     = map forget_confirms (credit_rows "T1" (Scenario.db_confirmed 3)).
Proof.
  pose proof (credit_rows_inserted_once false "" (Scenario.notify_T1 3)
                Scenario.later_deliveries Scenario.db_job "T1")
    as [A _].
  assert (H : (length (credit_rows "T1" Scenario.db_job)
               < length (credit_rows "T1" (Scenario.db_confirmed 3)))%nat)
    by (vm_compute; lia).
  destruct (A H) as (_ & B & C). split; [exact B | exact C].
Defined.

(** C1 fails on the code.  U1 owns A1 and A2, and one NOTIFY pays to
    both.  Without the unique index two credit rows are written for
    (T1, U1).  With it the second insert is rejected and the handler
    throws, but nothing is undone: the first credit row is there and
    the balance of U1 has been raised. *)
Lemma credit_neither_unique_nor_atomic :
  ~ (length (credits_for "T1" "U1" (Scenario.db_two_outputs false)) <= 1)%nat
  /\ outcome_of (notify true "" Scenario.notify_two_outputs
                   Scenario.db_two_addresses)
     = Thrown (QueryFailedError "user_wallet_tx(txid, txtype, userId)")
  /\ Scenario.db_two_outputs true <> Scenario.db_two_addresses
  /\ length (credits_for "T1" "U1" (Scenario.db_two_outputs true)) = 1%nat
  /\ Scenario.balance_of "U1" (Scenario.db_two_outputs true)
     = Some (parseFloat "0.00000100")
  /\ Scenario.balance_of "U1" Scenario.db_two_addresses = Some zero.
Proof.
  vm_compute. repeat split; try discriminate. lia.
Qed.

End CreditOnce.

(** ** Balances and the ledger *)

Module BalanceFacts.

Import JsNumber Db Broker Ledger TableFacts MonadFacts NotifyRun CreditFacts
       NotifyFacts CreditOnce.
Local Open Scope string_scope.

Lemma amounts_update (k : WalletTx -> bool) (set : WalletTx -> WalletTx)
      (rows : list WalletTx) :
  (forall r, tx_amount (set r) = tx_amount r) ->
  amounts_of (update_where k set rows) = amounts_of rows.
Proof.
  intros Ha. unfold amounts_of, update_where.
  induction rows as [|r rows IH]; simpl; [reflexivity|].
  rewrite IH. destruct (k r); [now rewrite Ha | reflexivity].
Qed.

Lemma credited_update (u : string) (k : WalletTx -> bool)
      (set : WalletTx -> WalletTx) (db : DB) :
  (forall r, tx_amount (set r) = tx_amount r) ->
  (forall r, is_credit_to u (set r) = is_credit_to u r) ->
  credited u (with_txs (update_where k set) db) = credited u db.
Proof.
  intros Ha Hq. unfold credited. simpl.
  rewrite filter_update_commute by exact Hq.
  now apply amounts_update.
Qed.

Lemma credited_insert (u : string) (r : WalletTx) (db : DB) :
  credited u (with_txs (insert_row r) db)
  = (credited u db ++ amounts_of (if is_credit_to u r then [r] else []))%list.
Proof.
  unfold credited. simpl. rewrite filter_insert_row.
  unfold amounts_of. now rewrite flat_map_app.
Qed.

Lemma credited_upserted (u : string) (json : Notify) (db : DB) :
  credited u (upserted json db) = credited u db.
Proof.
  unfold upserted. destruct (existsb _ _).
  - apply credited_update; reflexivity.
  - rewrite credited_insert. simpl. apply app_nil_r.
Qed.

Lemma balances_match_ext (a b : DB) :
  (forall u, credited u b = credited u a) ->
  balances b = balances a ->
  balances_match a -> balances_match b.
Proof.
  intros Hc Hb H u row F. unfold ledger. rewrite Hc.
  rewrite Hb in F. exact (H u row F).
Qed.

Lemma has_user_eq (u : string) (r : WalletBalance) :
  has_user u r = true <-> bal_userId r = u.
Proof. unfold has_user. apply String.eqb_eq. Qed.

Section Credit.

Variable unique_credit : bool.
Variable json : Notify.

Lemma credited_credit_row (u : string) (kv : string * UserEntry) (db : DB) :
  credited u (with_txs (insert_row (credit_row json kv)) db)
  = (credited u db
     ++ (if String.eqb (e_userId (snd kv)) u then [credit_amount kv] else []))%list.
Proof.
  rewrite credited_insert. f_equal.
  unfold is_credit_to. simpl.
  destruct (String.eqb (e_userId (snd kv)) u); reflexivity.
Qed.

(** One turn of the crediting loop keeps the balances on the
    ledgers: the row it inserts and the amount it adds go
    together, and a user without a balance row has no balance to
    keep. *)
Lemma credit_keeps_match (kv : string * UserEntry) :
  keeps balances_match (credit unique_credit json kv).
Proof.
  intros db H.
  destruct (credit_run unique_credit json kv db)
    as [(_ & _ & E)|[(Hnone & E)|(row & Hrow & E)]];
    rewrite E; unfold db_of; simpl.
  - exact H.
  - intros u r F. simpl in F. unfold ledger.
    rewrite credited_credit_row.
    destruct (String.eqb_spec (e_userId (snd kv)) u) as [Heq|Hne].
    + rewrite <- Heq in F. congruence.
    + rewrite app_nil_r. exact (H u r F).
  - intros u r F. simpl in F. unfold ledger.
    change (credited u (with_balances ?f ?d)) with (credited u d).
    rewrite credited_credit_row.
    rewrite find_update_where in F by (intros; reflexivity).
    destruct (find (has_user u) (balances db)) as [r0|] eqn:F0;
      [|discriminate].
    simpl in F. injection F as <-.
    pose proof (find_some _ _ F0) as [_ Hu]. apply has_user_eq in Hu.
    destruct (String.eqb_spec (e_userId (snd kv)) u) as [Heq|Hne].
    + rewrite Heq in *. rewrite F0 in Hrow. injection Hrow as ->.
      unfold has_user. rewrite Hu, String.eqb_refl. simpl.
      rewrite fold_left_app. simpl.
      now rewrite (H u row F0).
    + rewrite app_nil_r.
      replace (has_user (e_userId (snd kv)) r0) with false.
      * exact (H u r0 F0).
      * symmetry. unfold has_user. apply String.eqb_neq. congruence.
Qed.

Variable rxData : string.

Lemma after_notify_keeps_match (db : DB) :
  balances_match db ->
  balances_match (after_notify unique_credit rxData json db).
Proof.
  intros H.
  destruct (after_notify_cases unique_credit rxData json db)
    as [(_ & E)|[(_ & _ & E)|(_ & _ & _ & db_b & users & H1 & H2 & _ & E)]].
  - now rewrite E.
  - unfold after_notify. rewrite E. unfold db_of. simpl.
    apply (balances_match_ext (a := db)); [| |exact H].
    + intros u. apply credited_upserted.
    + apply upserted_balances.
  - rewrite E. apply keeps_forEach; [apply credit_keeps_match|].
    apply (balances_match_ext (a := db)); [| |exact H].
    + intros u. unfold finalized.
      rewrite credited_update by reflexivity.
      unfold credited. rewrite H1. apply credited_upserted.
    + exact H2.
Qed.

End Credit.

(** C5, as the code has it.  If, for every user that has a balance
    row, the cached balance is the binary64 sum (left to right, from
    +0) of the amounts of that user's credit rows, then it still is
    after any sequence of NOTIFY deliveries, whether a delivery
    replies or throws. *)
Theorem balance_is_float_ledger (unique_credit : bool)
        (msgs : list (string * Notify)) (db : DB) :
  balances_match db ->
  balances_match (deliver_all unique_credit msgs db).
Proof.
  revert db. induction msgs as [|[rx n] msgs IH]; intros db H; simpl.
  - exact H.
  - apply IH. now apply after_notify_keeps_match.
Qed.

(** A database without credit rows and with zero balances is one to
    start from. *)
Lemma balances_match_start (db : DB) :
  (forall r, In r (txs db) -> tx_txtype r <> 3%Z) ->
  (forall b, In b (balances db) -> bal_balance b = zero) ->
  balances_match db.
Proof.
  intros Ht Hb u row F.
  assert (E : credited u db = []).
  { unfold credited.
    induction (txs db) as [|r rows IH]; simpl; [reflexivity|].
    unfold is_credit_to at 1.
    pose proof (Ht r (or_introl eq_refl)) as Hr.
    apply Z.eqb_neq in Hr. rewrite Hr. simpl.
    apply IH. intros x Hx. apply Ht. simpl. auto. }
  unfold ledger. rewrite E. simpl.
  apply find_some in F as [Hin _]. now apply Hb.
Qed.

Lemma balance_is_float_ledger_witness :
  balances_match (Scenario.db_paid_01_02 false).
Proof.
  apply (balance_is_float_ledger false
           [("", Scenario.notify_pay "T1" "10000000");
            ("", Scenario.notify_pay "T2" "20000000")]
           (db := Scenario.db_two_jobs)).
  apply balances_match_start.
  - intros r [].
  - intros b [<-|[]]. reflexivity.
Defined.

(** C5 fails on the code.  T1 pays 0.10000000 and T2 pays 0.20000000
    to U1, whose balance was zero.  The cached balance is the number
    5404319552844596 * 2^-54 (0.30000000000000004...): it is neither
    the exact sum 3/10 of the two decimal amounts, nor the number
    nearest to it, nor even the exact sum of the two stored
    amounts. *)
Lemma balance_is_rounded :
  Scenario.balance_of "U1" (Scenario.db_paid_01_02 false)
  = Some Scenario.rounded_sum
  /\ Scenario.balance_of "U1" (Scenario.db_paid_01_02 true)
     = Some Scenario.rounded_sum
  /\ credited "U1" (Scenario.db_paid_01_02 false)
     = [parseFloat "0.10000000"; parseFloat "0.20000000"]
  /\ to_Q Scenario.rounded_sum = Some (5404319552844596 # 18014398509481984)
  /\ ~ (5404319552844596 # 18014398509481984
        == exact_amount "10000000" 8 + exact_amount "20000000" 8)%Q
  /\ Scenario.rounded_sum <> parseFloat "0.30000000"
  /\ to_Q (parseFloat "0.10000000") = Some (7205759403792794 # 72057594037927936)
  /\ to_Q (parseFloat "0.20000000") = Some (7205759403792794 # 36028797018963968)
  /\ ~ (5404319552844596 # 18014398509481984
        == (7205759403792794 # 72057594037927936)
           + (7205759403792794 # 36028797018963968))%Q.
Proof.
  vm_compute. repeat split; try discriminate.
Qed.

End BalanceFacts.

(** ** Where the handlers stop short *)

Module HandlerDefects.

Import JsNumber Db Broker Ledger TableFacts MonadFacts NotifyRun CreditFacts
       NotifyFacts.
Local Open Scope string_scope.

(** With the job row of T1 present, scenario 2 ends as expected. *)
Lemma scenario2_with_job :
  notify false "" (Scenario.notify_T1 3) Scenario.db_job
  = (Scenario.db_credited, Returned "Recieved NOTIFY")
  /\ notify true "" (Scenario.notify_T1 3) Scenario.db_job
     = (Scenario.db_credited, Returned "Recieved NOTIFY")
  /\ to_Q Scenario.one_and_a_half = Some (6755399441055744 # 4503599627370496)
  /\ (6755399441055744 # 4503599627370496 == 3 # 2)%Q.
Proof. vm_compute. repeat split. Qed.

(** C4 at the prior state the claim allows.  U1 owns A1 with a zero
    balance and T1 has no row, or only its unconfirmed type-1 row; no
    job row exists yet.  The handler reads [tx] at "Create Job" before
    [tx] is declared and throws: nothing is written and no reply is
    sent. *)
Theorem scenario2_without_job_throws :
  notify false "" (Scenario.notify_T1 3) Scenario.db_fresh
  = (Scenario.db_fresh, Thrown (ReferenceError "tx"))
  /\ notify true "" (Scenario.notify_T1 3) Scenario.db_fresh
     = (Scenario.db_fresh, Thrown (ReferenceError "tx"))
  /\ notify false "" (Scenario.notify_T1 3) Scenario.db_seen
     = (Scenario.db_seen, Thrown (ReferenceError "tx"))
  /\ notify true "" (Scenario.notify_T1 3) Scenario.db_seen
     = (Scenario.db_seen, Thrown (ReferenceError "tx"))
  /\ Scenario.db_fresh <> Scenario.db_credited.
Proof. repeat split; try reflexivity. discriminate. Qed.

(** A turn of the crediting loop for a user that has no balance row
    always throws, and writes no balance row. *)
Lemma credit_needs_balance_row (unique_credit : bool) (json : Notify)
      (kv : string * UserEntry) (db : DB) :
  find (has_user (e_userId (snd kv))) (balances db) = None ->
  (exists e, outcome_of (credit unique_credit json kv db) = Thrown e)
  /\ balances (db_of (credit unique_credit json kv db)) = balances db.
Proof.
  intros Hnone.
  destruct (credit_run unique_credit json kv db)
    as [(_ & _ & E)|[(_ & E)|(row & Hrow & _)]]; [| |congruence];
    rewrite E; unfold outcome_of, db_of; simpl; eauto.
Qed.

(** C7 on the code.  U1 owns A1, has no balance row, and the job row
    of T1 is present.  The NOTIFY that credits U1 inserts the credit
    row, then throws on reading [balance] of the missing row: no
    balance row is created and no reply is sent.  The transaction has
    been marked complete before, so a redelivery replies without
    crediting: U1 is left with a credit row and no balance. *)
Theorem notify_without_balance_row_throws :
  outcome_of (notify false "" (Scenario.notify_T1 3) Scenario.db_no_balance)
  = Thrown (TypeError "Cannot read properties of undefined (reading 'balance')")
  /\ outcome_of (notify true "" (Scenario.notify_T1 3) Scenario.db_no_balance)
     = Thrown (TypeError "Cannot read properties of undefined (reading 'balance')")
  /\ balances Scenario.db_uncredited = []
  /\ map tx_amount (credits_for "T1" "U1" Scenario.db_uncredited)
     = [Some Scenario.one_and_a_half]
  /\ completed "T1" Scenario.db_uncredited = true
  /\ notify false "" (Scenario.notify_T1 3) Scenario.db_uncredited
     = (Scenario.db_uncredited, Returned "Recieved NOTIFY").
Proof. vm_compute. repeat split. Qed.

Lemma outcome_of_bind_ret {A B : Type} (m : M A) (b : B) (db : DB) :
  outcome_of (bind m (fun _ => ret b) db) = Returned b
  \/ exists e, outcome_of (bind m (fun _ => ret b) db) = Thrown e.
Proof.
  unfold bind, ret, outcome_of. destruct (m db) as [d [a|e]]; simpl; eauto.
Qed.

(** C9 on the code.  The HEARTBEAT handler always replies
    ["Recieved HEARTBEAT"]; the NOTIFY handler replies
    ["Recieved NOTIFY"] or throws before replying.  Neither string is
    the one spelled "Received". *)
Theorem replies_spelling (unique_credit : bool) (updatedAt_default : Z -> Z)
        (rxData : string) (json : Notify) (now : Z) (hb : Heartbeat)
        (db : DB) :
  outcome_of (heartbeat updatedAt_default now hb db)
  = Returned "Recieved HEARTBEAT"
  /\ (outcome_of (notify unique_credit rxData json db)
      = Returned "Recieved NOTIFY"
      \/ exists e, outcome_of (notify unique_credit rxData json db) = Thrown e)
  /\ "Recieved HEARTBEAT" <> "Received HEARTBEAT"
  /\ "Recieved NOTIFY" <> "Received NOTIFY".
Proof.
  split; [apply HeartbeatFacts.heartbeat_replies|].
  split; [|split; discriminate].
  destruct (job_exists (n_txid json) db) eqn:Hj.
  - rewrite (notify_job unique_credit rxData json db Hj).
    apply outcome_of_bind_ret.
  - rewrite (notify_no_job unique_credit rxData json db Hj).
    right. eexists. reflexivity.
Qed.

(** The replies at the inputs of scenarios 2 and 6. *)
Lemma replies_at_scenarios :
  outcome_of (notify false "" (Scenario.notify_T1 3) Scenario.db_job)
  = Returned "Recieved NOTIFY"
  /\ outcome_of (heartbeat (fun t => t) 0 Scenario.heartbeat_900
                   Scenario.db_fresh)
     = Returned "Recieved HEARTBEAT".
Proof. vm_compute. split; reflexivity. Qed.

End HandlerDefects.

(** ** [parseFromIntString]: shape, bounds, and what [parseFloat] makes of it *)

Module AmountShape.

Import JsString Amount JsNumber DigitString AmountFacts.
Local Open Scope string_scope.

Lemma get_append_dot (a b : string) :
  String.get (String.length a) (a ++ "." ++ b) = Some "."%char.
Proof. induction a as [|c a IH]; simpl; [reflexivity | exact IH]. Qed.

(** The result is one character longer than its two parts, the ['.']
    stands after the integer part, and the integer part is never
    empty for a natural precision. *)
Theorem parseFromIntString_shape (s : string) (p : nat) :
  let L := String.length s in
  String.length (parseFromIntString s (Z.of_nat p)) = S (Nat.max L (S p))
  /\ String.get (dot_index L p) (parseFromIntString s (Z.of_nat p))
     = Some "."%char.
Proof.
  intros L. unfold dot_index.
  destruct (Nat.lt_ge_cases p L) as [H|H].
  - rewrite parse_long by exact H. fold L. split.
    + rewrite !length_append, !substring_length by (subst L; lia).
      simpl. lia.
    + replace (Nat.max (L - p) 1) with (L - p)%nat by lia.
      pose proof (get_append_dot (String.substring 0 (L - p) s)
                                 (String.substring (L - p) p s)) as E.
      rewrite substring_length in E by (subst L; lia). exact E.
  - rewrite parse_short by exact H. fold L. split.
    + simpl. rewrite length_append, length_zeros. fold L. lia.
    + replace (Nat.max (L - p) 1) with 1%nat by lia. reflexivity.
Qed.

Lemma js_substring_to_end (s : string) (a b : Z) :
  (JsString.len s <= a)%Z -> (JsString.len s <= b)%Z ->
  JsString.substring s a b = "".
Proof.
  intros Ha Hb. unfold JsString.substring, clamp, len in *.
  replace (Z.max 0 (Z.min a (Z.of_nat (String.length s))))
    with (Z.of_nat (String.length s)) by lia.
  replace (Z.max 0 (Z.min b (Z.of_nat (String.length s))))
    with (Z.of_nat (String.length s)) by lia.
  rewrite Z.min_id, Z.max_id, Z.sub_diag, Nat2Z.id. simpl.
  clear. induction s as [|c s IH]; simpl; [reflexivity | exact IH].
Qed.

Lemma js_substring_all (s : string) (b : Z) :
  (JsString.len s <= b)%Z -> JsString.substring s 0 b = s.
Proof.
  intros Hb. unfold JsString.substring, clamp, len in *.
  replace (Z.max 0 (Z.min 0 (Z.of_nat (String.length s)))) with 0%Z by lia.
  replace (Z.max 0 (Z.min b (Z.of_nat (String.length s))))
    with (Z.of_nat (String.length s)) by lia.
  replace (Z.min 0 (Z.of_nat (String.length s))) with 0%Z by lia.
  replace (Z.max 0 (Z.of_nat (String.length s)))
    with (Z.of_nat (String.length s)) by lia.
  rewrite Z.sub_0_r, Nat2Z.id. simpl. apply substring_0_all.
Qed.

(** A precision that is not positive: the whole string is the integer
    part and the fraction is empty; only the empty string at precision
    0 gets the integer part ["0"]. *)
Theorem parseFromIntString_nonpositive (s : string) (p : Z) :
  ((p < 0)%Z -> parseFromIntString s p = s ++ ".")
  /\ (s <> "" -> parseFromIntString s 0 = s ++ ".")
  /\ parseFromIntString "" 0 = "0.".
Proof.
  assert (G : forall q, (q <= 0)%Z -> (JsString.len s > q)%Z ->
                        parseFromIntString s q = s ++ ".").
  { intros q Hq Hl. unfold parseFromIntString.
    destruct (Z.gtb_spec (JsString.len s) q) as [_|N]; [|lia].
    rewrite js_substring_all by lia.
    rewrite js_substring_to_end by lia. reflexivity. }
  split; [|split].
  - intros Hp. apply G; [lia|]. unfold JsString.len. lia.
  - intros Hs. apply G; [lia|]. unfold JsString.len.
    destruct s; [congruence|]. simpl. lia.
  - reflexivity.
Qed.

Lemma parseFromIntString_nonpositive_witness :
  parseFromIntString "42" (-3) = "42." /\ parseFromIntString "42" 0 = "42.".
Proof.
  split.
  - apply (proj1 (parseFromIntString_nonpositive "42" (-3))). lia.
  - apply (proj1 (proj2 (parseFromIntString_nonpositive "42" 0))). discriminate.
Defined.

End AmountShape.

(** ** The amount [parseFloat] reads from [parseFromIntString] *)

Module AmountValue.

Import JsString Amount JsNumber DigitString AmountFacts.
Local Open Scope string_scope.

(** A digit is no white space, no sign, no ['.'], and does not start
    ["Infinity"]. *)
Lemma digit_head (c : ascii) (r : string) :
  is_digit c = true ->
  skip_spaces (String c r) = String c r
  /\ parse_sign (String c r) = (false, String c r)
  /\ String.prefix "Infinity" (String c r) = false.
Proof.
  destruct c as [[] [] [] [] [] [] [] []]; intros H;
    try discriminate H; repeat split.
Qed.

Lemma dot_not_digit : is_digit "."%char = false.
Proof. reflexivity. Qed.

Lemma span_digits_all (a : string) :
  all_digits a = true -> span_digits a = (a, "").
Proof.
  induction a as [|c a IH]; simpl; [reflexivity|].
  intros H. apply andb_true_iff in H as [Hc Ha].
  now rewrite Hc, (IH Ha).
Qed.

Lemma span_digits_dot (a b : string) :
  all_digits a = true -> span_digits (a ++ String "." b) = (a, String "." b).
Proof.
  induction a as [|c a IH]; simpl; [reflexivity|].
  intros H. apply andb_true_iff in H as [Hc Ha].
  now rewrite Hc, (IH Ha).
Qed.

Lemma all_digits_append (a b : string) :
  all_digits (a ++ b) = all_digits a && all_digits b.
Proof.
  induction a as [|c a IH]; simpl; [reflexivity|].
  now rewrite IH, andb_assoc.
Qed.

Lemma all_digits_zeros (n : nat) : all_digits (zeros n) = true.
Proof. induction n as [|n IH]; simpl; [reflexivity | exact IH]. Qed.

(** What [parseFloat] reads from ["<int>.<frac>"] when both parts are
    digits and the integer part is not empty. *)
Lemma parseFloat_decimal_text (c : ascii) (int frac : string) :
  all_digits (String c int) = true -> all_digits frac = true ->
  parseFloat (String c int ++ "." ++ frac)
  = of_decimal false (decimal (String c int ++ frac)) (- len frac).
Proof.
  intros Hi Hf. unfold parseFloat.
  pose proof Hi as Hc. simpl in Hc. apply andb_true_iff in Hc as [Hc _].
  change (String c int ++ "." ++ frac) with (String c (int ++ "." ++ frac)).
  destruct (digit_head c (int ++ "." ++ frac) Hc) as (E1 & E2 & E3).
  rewrite E1, E2, E3.
  change (String c (int ++ "." ++ frac)) with (String c int ++ "." ++ frac).
  change ("." ++ frac) with (String "." frac).
  rewrite (span_digits_dot _ frac Hi).
  cbv iota beta. rewrite (span_digits_all _ Hf).
  simpl parse_exponent. reflexivity.
Qed.

(** For a string [s] of digits, [parseFloat (parseFromIntString s p)] is
    the number nearest to [s / 10^p]: it depends on [s] only through the
    integer [s] denotes, so zeros in front of [s] change nothing. *)
Theorem parseFloat_parseFromIntString (s : string) (p : nat) :
  all_digits s = true ->
  parseFloat (parseFromIntString s (Z.of_nat p))
  = of_decimal false (decimal s) (- Z.of_nat p).
Proof.
  intros Hs.
  destruct (Nat.lt_ge_cases p (String.length s)) as [H|H].
  - rewrite parse_long by exact H.
    set (int := String.substring 0 (String.length s - p) s).
    set (frac := String.substring (String.length s - p) p s).
    assert (Es : int ++ frac = s) by (apply substring_split; lia).
    assert (Hl : String.length frac = p) by (apply substring_length; lia).
    assert (Hd : all_digits int = true /\ all_digits frac = true).
    { apply andb_true_iff. rewrite <- all_digits_append, Es. exact Hs. }
    destruct Hd as [Hi Hf].
    destruct int as [|c int'] eqn:Ei.
    + exfalso. subst int.
      assert (String.length (String.substring 0 (String.length s - p) s)
              = (String.length s - p)%nat) by (apply substring_length; lia).
      rewrite Ei in H0. simpl in H0. lia.
    + rewrite (parseFloat_decimal_text c int' frac Hi Hf).
      rewrite Es. unfold len. now rewrite Hl.
  - rewrite parse_short by exact H.
    set (frac := zeros (p - String.length s) ++ s).
    assert (Hf : all_digits frac = true).
    { subst frac. now rewrite all_digits_append, all_digits_zeros, Hs. }
    assert (Hl : String.length frac = p).
    { subst frac. rewrite length_append, length_zeros. lia. }
    rewrite (parseFloat_decimal_text "0" "" frac eq_refl Hf).
    unfold len. rewrite Hl. f_equal.
    change ("0" ++ frac) with (zeros 1 ++ frac).
    rewrite decimal_append, decimal_zeros. subst frac.
    rewrite decimal_append, decimal_zeros. reflexivity.
Qed.

Lemma parseFloat_parseFromIntString_witness :
  parseFloat (parseFromIntString "150000000" 8)
  = of_decimal false 150000000 (-8).
Proof.
  apply (parseFloat_parseFromIntString "150000000" 8). reflexivity.
Defined.

End AmountValue.

(** ** What a NOTIFY may write *)

Module FootprintFacts.

Import JsNumber Db Broker Ledger Footprint TableFacts MonadFacts NotifyRun
       CreditFacts NotifyFacts.
Local Open Scope string_scope.

Lemma writes_one (json : Notify) (a b c : DB) :
  writes json a b -> write json b c -> writes json a c.
Proof. apply writes_more. Qed.

Section Steps.

Variable unique_credit : bool.
Variables (rxData : string) (json : Notify) (db0 : DB).

Let I : DB -> Prop := writes json db0.

Lemma keeps_gets {A : Type} (q : DB -> A) : keeps I (gets q).
Proof. intros db H. exact H. Qed.

Lemma keeps_throw {A : Type} (e : error) : keeps I (@throw A e).
Proof. intros db H. exact H. Qed.

Lemma keeps_write (f : DB -> DB) :
  (forall db, write json db (f db)) -> keeps I (modify f).
Proof. intros Hf db H. exact (writes_more H (Hf db)). Qed.

Lemma insert_tx_writes (r : WalletTx) :
  (forall db, write json db (with_txs (insert_row r) db)) ->
  keeps I (insert_tx unique_credit r).
Proof.
  intros Hr db H. unfold insert_tx, db_of.
  destruct (unique_credit && existsb (same_credit_key r) (txs db)); simpl.
  - exact H.
  - exact (writes_more H (Hr db)).
Qed.

Lemma create_job_writes (jobe : bool) :
  keeps I (create_job rxData json jobe).
Proof.
  unfold create_job. destruct jobe; simpl.
  - apply keeps_ret.
  - apply keeps_bind; [apply keeps_throw|].
    intros tx. destruct (negb (tx_complete tx) && _).
    + apply keeps_bind; [|intros _; apply keeps_throw].
      apply keeps_write. intros db. now apply write_job_insert.
    + apply keeps_ret.
Qed.

Lemma upsert_tx_writes (txe : bool) : keeps I (upsert_tx unique_credit json txe).
Proof.
  unfold upsert_tx. destruct txe; simpl.
  - apply keeps_write. intros db. apply write_tx_confirms.
  - apply insert_tx_writes. intros db. apply write_tx_first.
Qed.

Lemma attribute_writes (jobe : bool) (bals : list BalanceEntry) :
  forall users, keeps I (attribute rxData json jobe bals users).
Proof.
  induction bals as [|bal rest IH]; intros users; simpl.
  - apply keeps_ret.
  - apply keeps_bind; [apply keeps_gets|].
    intros [a|]; [|apply IH].
    destruct (addr_userId a) as [uid|]; [|apply IH].
    apply keeps_bind; [|intros _; apply IH].
    destruct jobe; simpl.
    + apply keeps_write. intros db. apply write_job_update.
    + apply keeps_write. intros db. now apply write_job_insert.
Qed.

Lemma credit_writes (kv : string * UserEntry) :
  keeps I (credit unique_credit json kv).
Proof.
  unfold credit. apply keeps_bind.
  - apply insert_tx_writes. intros db. apply (write_tx_credit json kv).
  - intros _. apply keeps_bind; [apply keeps_gets|].
    intros [row|]; [|apply keeps_throw].
    apply keeps_write. intros db. apply write_balance.
Qed.

Lemma check_job_writes (jobe : bool) (tx : option WalletTx) :
  keeps I (check_job unique_credit rxData json jobe tx).
Proof.
  unfold check_job. destruct tx as [t|]; [|apply keeps_ret].
  destruct (negb (tx_complete t)); simpl; [|apply keeps_ret].
  destruct (n_confirmations json >=? 3)%Z eqn:E; [|apply keeps_ret].
  apply keeps_bind; [apply attribute_writes|].
  intros users. apply keeps_bind.
  - apply keeps_write. intros db. apply write_tx_finalized.
  - intros _. apply keeps_forEach. apply credit_writes.
Qed.

Lemma notify_keeps_writes : keeps I (notify unique_credit rxData json).
Proof.
  unfold notify.
  apply keeps_bind; [apply keeps_gets|]. intros jobe.
  apply keeps_bind; [apply keeps_gets|]. intros txe.
  apply keeps_bind; [apply create_job_writes|]. intros jobe'.
  apply keeps_bind; [apply upsert_tx_writes|]. intros _.
  apply keeps_bind; [apply keeps_gets|]. intros tx.
  apply keeps_bind; [apply check_job_writes|]. intros _.
  apply keeps_ret.
Qed.

End Steps.

(** Whatever a delivery does to the database, whether it replies or
    throws, is a run of the seven writes. *)
Lemma after_notify_writes (unique_credit : bool) (rxData : string)
      (json : Notify) (db : DB) :
  writes json db (after_notify unique_credit rxData json db).
Proof.
  apply (@notify_keeps_writes unique_credit rxData json db).
  apply writes_none.
Qed.

End FootprintFacts.

(** ** What no NOTIFY does *)

Module FrameFacts.

Import JsNumber Db Broker Ledger Footprint TableFacts MonadFacts NotifyRun
       CreditFacts NotifyFacts FootprintFacts.
Local Open Scope string_scope.

Section Rel.

Context {R : Type}.
Variable rel : R -> R -> Prop.
Hypothesis rel_refl : forall r, rel r r.
Hypothesis rel_trans : forall a b c, rel a b -> rel b c -> rel a c.

Lemma Forall2_same (l : list R) : Forall2 rel l l.
Proof. induction l; constructor; auto. Qed.

Lemma Forall2_through (a b c : list R) :
  Forall2 rel a b -> Forall2 rel b c -> Forall2 rel a c.
Proof.
  intros H. revert c. induction H as [|x y a b Hxy Hab IH]; intros c Hc.
  - inversion Hc. constructor.
  - inversion Hc as [|y' z b' c' Hyz Hbc]; subst.
    constructor; [eapply rel_trans; eauto | now apply IH].
Qed.

Lemma Forall2_update (k : R -> bool) (f : R -> R) (l : list R) :
  (forall r, rel r (f r)) -> Forall2 rel l (update_where k f l).
Proof.
  intros Hf. unfold update_where.
  induction l as [|r l IH]; simpl; constructor; [|exact IH].
  destruct (k r); auto.
Qed.

Lemma grows_same (l : list R) : grows_from rel l l.
Proof. exists l, []. split; [now rewrite app_nil_r | apply Forall2_same]. Qed.

Lemma grows_update (k : R -> bool) (f : R -> R) (l : list R) :
  (forall r, rel r (f r)) -> grows_from rel l (update_where k f l).
Proof.
  intros Hf. exists (update_where k f l), []. split.
  - now rewrite app_nil_r.
  - now apply Forall2_update.
Qed.

Lemma grows_insert (r : R) (l : list R) : grows_from rel l (insert_row r l).
Proof. exists l, [r]. split; [reflexivity | apply Forall2_same]. Qed.

Lemma grows_through (a b c : list R) :
  grows_from rel a b -> grows_from rel b c -> grows_from rel a c.
Proof.
  intros (k1 & a1 & -> & H1) (k2 & a2 & -> & H2).
  apply Forall2_app_inv_l in H2 as (k21 & k22 & H21 & H22 & ->).
  exists k21, (k22 ++ a2)%list. split.
  - now rewrite app_assoc.
  - eapply Forall2_through; eauto.
Qed.

(** Growth that adds no row relates the rows one by one. *)
Lemma grows_same_length (a b : list R) :
  grows_from rel a b -> length b = length a -> Forall2 rel a b.
Proof.
  intros (k & added & -> & H) Hl.
  pose proof (Forall2_length H) as E. rewrite length_app in Hl.
  destruct added; [now rewrite app_nil_r | simpl in Hl; lia].
Qed.

End Rel.

Lemma tx_advance_refl (r : WalletTx) : tx_advance r r.
Proof. unfold tx_advance. auto 10. Qed.

Lemma tx_advance_trans (a b c : WalletTx) :
  tx_advance a b -> tx_advance b c -> tx_advance a c.
Proof.
  unfold tx_advance. intros (A1 & A2 & A3 & A4 & A5 & A6 & A7)
                            (B1 & B2 & B3 & B4 & B5 & B6 & B7).
  repeat split; try congruence. auto.
Qed.

Lemma job_advance_refl (j : WalletJob) : job_advance j j.
Proof. unfold job_advance. auto. Qed.

Lemma job_advance_trans (a b c : WalletJob) :
  job_advance a b -> job_advance b c -> job_advance a c.
Proof.
  unfold job_advance. intros (A1 & A2 & A3 & A4) (B1 & B2 & B3 & B4).
  repeat split; try congruence.
  destruct B4 as [B4|B4]; [|auto]. rewrite B4. exact A4.
Qed.

Lemma same_user_refl (b : WalletBalance) : same_user b b.
Proof. reflexivity. Qed.

Lemma same_user_trans (a b c : WalletBalance) :
  same_user a b -> same_user b c -> same_user a c.
Proof. unfold same_user. congruence. Qed.

(** What one write keeps. *)
Lemma write_frame (json : Notify) (a b : DB) :
  write json a b ->
  grows_from tx_advance (txs a) (txs b)
  /\ grows_from job_advance (jobs a) (jobs b)
  /\ Forall2 same_user (balances a) (balances b)
  /\ addresses b = addresses a /\ statuses b = statuses a.
Proof.
  intros H. destruct H; simpl; repeat split;
    try (apply grows_same; auto using tx_advance_refl, job_advance_refl);
    try (apply Forall2_same; apply same_user_refl);
    try (apply grows_insert; auto using tx_advance_refl, job_advance_refl).
  - apply grows_update; [apply job_advance_refl|].
    intros j. unfold job_advance. simpl. auto.
  - apply grows_update; [apply tx_advance_refl|].
    intros r. unfold tx_advance. simpl. auto 10.
  - apply grows_update; [apply tx_advance_refl|].
    intros r. unfold tx_advance. simpl. auto 10.
  - apply Forall2_update; [apply same_user_refl|]. intros r. reflexivity.
Qed.

Lemma writes_frame (json : Notify) (a b : DB) :
  writes json a b ->
  grows_from tx_advance (txs a) (txs b)
  /\ grows_from job_advance (jobs a) (jobs b)
  /\ Forall2 same_user (balances a) (balances b)
  /\ addresses b = addresses a /\ statuses b = statuses a.
Proof.
  induction 1 as [db|a b c Hab IH Hbc].
  - repeat split;
      try (apply grows_same; auto using tx_advance_refl, job_advance_refl).
    apply Forall2_same. apply same_user_refl.
  - destruct IH as (A1 & A2 & A3 & A4 & A5).
    destruct (write_frame Hbc) as (B1 & B2 & B3 & B4 & B5).
    repeat split; try congruence.
    + eapply grows_through; eauto using tx_advance_refl, tx_advance_trans.
    + eapply grows_through; eauto using job_advance_refl, job_advance_trans.
    + eapply Forall2_through; eauto using same_user_trans.
Qed.

Section OneDelivery.

Variable unique_credit : bool.
Variables (rxData : string) (json : Notify) (db : DB).

Let after : DB := after_notify unique_credit rxData json db.

(** No delivery adds or removes a job row. *)
Lemma after_notify_job_keys : map job_job (jobs after) = map job_job (jobs db).
Proof.
  subst after.
  destruct (after_notify_cases unique_credit rxData json db)
    as [(_ & E)|[(_ & _ & E)|(_ & _ & _ & db_b & users & H1 & _ & H5 & E)]].
  - now rewrite E.
  - unfold after_notify. rewrite E. unfold db_of. simpl.
    now rewrite upserted_jobs.
  - rewrite E.
    destruct (credited_state unique_credit json db_b users) as (_ & _ & _ & D).
    + rewrite H1. apply upserted_has_row.
    + rewrite D. exact H5.
Qed.

Lemma after_notify_frame :
  grows_from tx_advance (txs db) (txs after)
  /\ Forall2 job_advance (jobs db) (jobs after)
  /\ Forall2 same_user (balances db) (balances after)
  /\ addresses after = addresses db /\ statuses after = statuses db.
Proof.
  destruct (writes_frame (after_notify_writes unique_credit rxData json db))
    as (A1 & A2 & A3 & A4 & A5).
  fold after in A1, A2, A3, A4, A5.
  repeat split; try assumption.
  apply grows_same_length; [exact A2|].
  pose proof after_notify_job_keys as E.
  apply (f_equal (@length _)) in E. now rewrite !length_map in E.
Qed.

End OneDelivery.

(** Through any sequence of NOTIFY deliveries, replied or thrown, the
    rows of [user_wallet_tx] are never removed or reordered, keep their
    [txid], [txtype], [userId], [blockhash], [coinType] and [amount],
    and stay complete once complete. *)
Theorem tx_rows_kept (unique_credit : bool) (msgs : list (string * Notify))
        (db : DB) :
  grows_from tx_advance (txs db) (txs (deliver_all unique_credit msgs db)).
Proof.
  revert db. induction msgs as [|[rx n] msgs IH]; intros db; simpl.
  - apply grows_same. apply tx_advance_refl.
  - eapply grows_through; [apply tx_advance_trans| |apply IH].
    apply (after_notify_frame unique_credit rx n db).
Qed.

(** Through any sequence of NOTIFY deliveries no job row and no balance
    row is added or removed: each job keeps its key, type and data and
    its state stays or becomes 3, each balance row keeps its user, and
    the address and status tables are not written. *)
Theorem other_rows_kept (unique_credit : bool) (msgs : list (string * Notify))
        (db : DB) :
  Forall2 job_advance (jobs db) (jobs (deliver_all unique_credit msgs db))
  /\ Forall2 same_user (balances db)
             (balances (deliver_all unique_credit msgs db))
  /\ addresses (deliver_all unique_credit msgs db) = addresses db
  /\ statuses (deliver_all unique_credit msgs db) = statuses db.
Proof.
  revert db. induction msgs as [|[rx n] msgs IH]; intros db; simpl.
  - repeat split.
    + apply Forall2_same. apply job_advance_refl.
    + apply Forall2_same. apply same_user_refl.
  - destruct (after_notify_frame unique_credit rx n db)
      as (_ & A2 & A3 & A4 & A5).
    destruct (IH (after_notify unique_credit rx n db)) as (B2 & B3 & B4 & B5).
    repeat split; try congruence.
    + eapply Forall2_through; eauto using job_advance_trans.
    + eapply Forall2_through; eauto using same_user_trans.
Qed.

End FrameFacts.

(** ** Attribution, job promotion and the order of the credits *)

Module AttributionFacts.

Import JsNumber Db Broker Ledger Attribution TableFacts MonadFacts NotifyRun
       CreditFacts NotifyFacts.
Local Open Scope string_scope.

(** *** The [users] map *)

Lemma users_get_set (k k' : string) (v : UserEntry) (m : Users) :
  users_get k' (map_set k v m)
  = if String.eqb k k' then Some v else users_get k' m.
Proof.
  unfold users_get. induction m as [|[k0 v0] m IH]; simpl.
  - destruct (String.eqb k k'); reflexivity.
  - destruct (String.eqb_spec k0 k) as [->|Hne]; simpl.
    + destruct (String.eqb k k'); reflexivity.
    + destruct (String.eqb_spec k0 k') as [->|Hne']; simpl.
      * destruct (String.eqb_spec k k'); [congruence | reflexivity].
      * exact IH.
Qed.

Lemma map_set_keys (k : string) (v : UserEntry) (m : Users) :
  map fst (map_set k v m)
  = if existsb (String.eqb k) (map fst m) then map fst m
    else (map fst m ++ [k])%list.
Proof.
  induction m as [|[k0 v0] m IH]; simpl; [reflexivity|].
  destruct (String.eqb_spec k0 k) as [->|Hne]; simpl.
  - now rewrite String.eqb_refl.
  - destruct (String.eqb_spec k k0); [congruence|]. simpl.
    rewrite IH. destruct (existsb (String.eqb k) (map fst m)); reflexivity.
Qed.

Lemma map_set_nodup (k : string) (v : UserEntry) (m : Users) :
  NoDup (map fst m) -> NoDup (map fst (map_set k v m)).
Proof.
  intros H. rewrite map_set_keys.
  destruct (existsb (String.eqb k) (map fst m)) eqn:E; [exact H|].
  apply NoDup_rev in H. rewrite <- (rev_involutive (map fst m ++ [k])).
  apply NoDup_rev. rewrite rev_app_distr. simpl. constructor; [|exact H].
  intros Hin. apply in_rev in Hin.
  assert (existsb (String.eqb k) (map fst m) = true).
  { apply existsb_exists. exists k. split; [exact Hin | apply String.eqb_refl]. }
  congruence.
Qed.

Lemma find_append {R : Type} (p : R -> bool) (a b : list R) :
  find p (a ++ b) = match find p a with
                    | Some x => Some x
                    | None => find p b
                    end.
Proof.
  induction a as [|x a IH]; simpl; [reflexivity|].
  destruct (p x); [reflexivity | exact IH].
Qed.

Lemma users_from_nodup (entries : list (string * UserEntry)) :
  forall start, NoDup (map fst start) ->
                NoDup (map fst (users_from entries start)).
Proof.
  induction entries as [|kv entries IH]; intros start H; simpl; [exact H|].
  apply IH. now apply map_set_nodup.
Qed.

Lemma users_get_app (k : string) (a b : Users) :
  users_get k (a ++ b)%list = match users_get k a with
                         | Some v => Some v
                         | None => users_get k b
                         end.
Proof.
  unfold users_get. rewrite find_append.
  destruct (find (fun kv => String.eqb (fst kv) k) a); reflexivity.
Qed.

Lemma users_from_get (k : string) (entries : list (string * UserEntry)) :
  forall start,
    users_get k (users_from entries start)
    = match users_get k (rev entries) with
      | Some v => Some v
      | None => users_get k start
      end.
Proof.
  induction entries as [|[k0 v0] entries IH]; intros start.
  - reflexivity.
  - change (users_from ((k0, v0) :: entries) start)
      with (users_from entries (map_set k0 v0 start)).
    change (rev ((k0, v0) :: entries)) with (rev entries ++ [(k0, v0)])%list.
    rewrite IH, users_get_app.
    destruct (users_get k (rev entries)); [reflexivity|].
    rewrite users_get_set. unfold users_get. simpl.
    destruct (String.eqb k0 k); reflexivity.
Qed.

(** The [users] map of a delivery has each attributed address once, and
    holds for it the entry of its last occurrence in [json.balances]. *)
Theorem users_map_last_wins (addrs : list WalletAddress)
        (bals : list BalanceEntry) (k : string) :
  NoDup (map fst (users_from (attributed addrs bals) []))
  /\ users_get k (users_from (attributed addrs bals) [])
     = users_get k (rev (attributed addrs bals)).
Proof.
  split.
  - apply users_from_nodup. constructor.
  - rewrite users_from_get.
    destruct (users_get k (rev (attributed addrs bals))); reflexivity.
Qed.

(** *** The loop, with a job row present *)

Lemma attribute_spec (rxData : string) (json : Notify)
      (bals : list BalanceEntry) :
  forall (users : Users) (db : DB),
    attribute rxData json true bals users db
    = (mkDB (txs db)
            (promote_all (n_txid json) (attributed (addresses db) bals)
                         (jobs db))
            (addresses db) (balances db) (statuses db),
       Returned (users_from (attributed (addresses db) bals) users)).
Proof.
  induction bals as [|bal rest IH]; intros users db.
  - destruct db; reflexivity.
  - cbn [attribute]. unfold bind at 1, gets at 1.
    unfold attributed. cbn [flat_map]. fold (attributed (addresses db) rest).
    unfold attributed_entry.
    destruct (find (has_address (b_address bal)) (addresses db)) as [a|];
      [destruct (addr_userId a) as [uid|]|]; apply IH.
Qed.

Lemma set_job_processed_twice (u v : string) (j : WalletJob) :
  set_job_processed v (set_job_processed u j) = set_job_processed v j.
Proof. reflexivity. Qed.

Lemma promote_twice (t u v : string) (js : list WalletJob) :
  update_where (has_job t) (set_job_processed v)
    (update_where (has_job t) (set_job_processed u) js)
  = update_where (has_job t) (set_job_processed v) js.
Proof.
  unfold update_where. rewrite map_map. apply map_ext.
  intros j. destruct (has_job t j) eqn:E.
  - change (has_job t (set_job_processed u j)) with (has_job t j).
    now rewrite E.
  - now rewrite E.
Qed.

Lemma promote_then (t v : string) (entries : list (string * UserEntry)) :
  forall js,
    update_where (has_job t) (set_job_processed v) (promote_all t entries js)
    = update_where (has_job t) (set_job_processed v) js.
Proof.
  induction entries as [|e entries IH]; intros js; simpl; [reflexivity|].
  rewrite IH. apply promote_twice.
Qed.

(** Promoting for each entry in turn is promoting for the last one. *)
Lemma promote_all_last (t : string) (entries : list (string * UserEntry))
      (kv : string * UserEntry) (js : list WalletJob) :
  promote_all t (entries ++ [kv]) js
  = update_where (has_job t) (set_job_processed (e_userId (snd kv))) js.
Proof.
  unfold promote_all. rewrite fold_left_app. simpl.
  apply promote_then.
Qed.

(** *** The crediting branch *)

Section Crediting.

Variable unique_credit : bool.
Variables (rxData : string) (json : Notify).

Lemma upserted_addresses (db : DB) : addresses (upserted json db) = addresses db.
Proof. unfold upserted. destruct (existsb _ _); reflexivity. Qed.

(** With a job row, the transaction not complete and at least 3
    confirmations, the handler is the crediting loop run on
    [credit_base]. *)
Lemma notify_crediting (db : DB) :
  job_exists (n_txid json) db = true ->
  completed (n_txid json) db = false ->
  (3 <= n_confirmations json)%Z ->
  notify unique_credit rxData json db
  = bind (forEach (credit unique_credit json) (credit_users json db))
         (fun _ => ret "Recieved NOTIFY") (credit_base json db).
Proof.
  intros Hj Hc H3.
  destruct (notify_credit unique_credit rxData json db Hj Hc H3)
    as (db_b & users & E & _ & _ & _ & Hrun).
  rewrite attribute_spec in E. injection E as <- <-.
  rewrite Hrun. unfold credit_users, credit_base, with_jobs.
  rewrite <- (upserted_addresses db). reflexivity.
Qed.

(** The loop inserts the credit rows of a first part of the map, in the
    order of the map, and writes no job; it returns only when it has
    gone through the whole map. *)
Lemma credits_prefix (users : Users) :
  forall db,
  exists k,
    (k <= length users)%nat
    /\ txs (db_of (forEach (credit unique_credit json) users db))
       = (txs db ++ map (credit_row json) (firstn k users))%list
    /\ jobs (db_of (forEach (credit unique_credit json) users db)) = jobs db
    /\ (outcome_of (forEach (credit unique_credit json) users db) = Returned tt
        -> k = length users).
Proof.
  induction users as [|kv users IH]; intros db.
  - exists 0%nat. simpl. unfold db_of, ret. simpl.
    rewrite app_nil_r. auto.
  - cbn [forEach]. unfold bind.
    destruct (credit_run unique_credit json kv db)
      as [(_ & _ & E)|[(_ & E)|(row & _ & E)]]; rewrite E.
    + exists 0%nat. unfold db_of, outcome_of. simpl.
      rewrite app_nil_r. repeat split; [lia|discriminate].
    + exists 1%nat. unfold db_of, outcome_of. simpl.
      repeat split; [lia|discriminate].
    + destruct (IH (with_balances
                      (update_where (has_user (e_userId (snd kv)))
                         (set_balance (JsNumber.add (bal_balance row)
                                                    (credit_amount kv))))
                      (with_txs (insert_row (credit_row json kv)) db)))
        as (k & Hk & Ht & Hjb & Hr).
      exists (S k). repeat split.
      * simpl. lia.
      * rewrite Ht. simpl. unfold insert_row. now rewrite <- app_assoc.
      * rewrite Hjb. reflexivity.
      * intros Ho. simpl. f_equal. now apply Hr.
Qed.

(** With a balance row for every user of the map and, under the unique
    index, no key of the map taken or repeated, the loop goes through
    the whole map. *)
Lemma credits_all (users : Users) :
  forall db,
    all_have_balance users db = true ->
    (unique_credit = true ->
     NoDup (map (fun kv => e_userId (snd kv)) users)
     /\ forall kv, In kv users ->
          existsb (same_credit_key (credit_row json kv)) (txs db) = false) ->
    outcome_of (forEach (credit unique_credit json) users db) = Returned tt
    /\ txs (db_of (forEach (credit unique_credit json) users db))
       = (txs db ++ map (credit_row json) users)%list.
Proof.
  induction users as [|kv users IH]; intros db Hb Hsafe.
  - unfold outcome_of, db_of. simpl. now rewrite app_nil_r.
  - cbn [forEach]. unfold bind. simpl in Hb.
    apply andb_true_iff in Hb as [Hkv Hrest].
    destruct (credit_run unique_credit json kv db)
      as [(Ht & Hdup & _)|[(Hnone & _)|(row & _ & E)]].
    + exfalso. destruct (Hsafe Ht) as [_ Hfree].
      rewrite (Hfree kv (or_introl eq_refl)) in Hdup. discriminate.
    + exfalso. destruct (existsb_true_find _ _ Hkv) as [r Hr]. congruence.
    + rewrite E.
      set (db' := with_balances _ _).
      assert (Hb' : all_have_balance users db' = true).
      { unfold all_have_balance in *. rewrite forallb_forall in *.
        intros x Hx. subst db'. simpl.
        rewrite existsb_update by (intros; reflexivity). now apply Hrest. }
      assert (Hsafe' : unique_credit = true ->
                NoDup (map (fun kv => e_userId (snd kv)) users)
                /\ forall x, In x users ->
                     existsb (same_credit_key (credit_row json x)) (txs db')
                     = false).
      { intros Ht. destruct (Hsafe Ht) as [Hnd Hfree].
        inversion Hnd as [|u us Hnotin Hnd']; subst. split; [exact Hnd'|].
        intros x Hx. subst db'. simpl.
        rewrite existsb_insert_row, (Hfree x (or_intror Hx)). simpl.
        unfold same_credit_key. simpl.
        destruct (String.eqb_spec (e_userId (snd x)) (e_userId (snd kv)))
          as [Heq|Hne]; [|now rewrite andb_false_r].
        exfalso. apply Hnotin. rewrite <- Heq.
        apply (in_map (fun kv => e_userId (snd kv)) users x Hx). }
      destruct (IH db' Hb' Hsafe') as [Ho Ht]. split; [exact Ho|].
      rewrite Ht. subst db'. simpl. unfold insert_row.
      now rewrite <- app_assoc.
Qed.

End Crediting.

Lemma outcome_of_bind_ret_inv {B : Type} (m : M unit) (b b' : B) (db : DB) :
  outcome_of (bind m (fun _ => ret b) db) = Returned b' ->
  outcome_of (m db) = Returned tt.
Proof.
  unfold bind, ret, outcome_of. destruct (m db) as [d [[]|e]]; simpl.
  - reflexivity.
  - discriminate.
Qed.

Lemma firstn_nodup {A : Type} (k : nat) (l : list A) :
  NoDup l -> NoDup (firstn k l).
Proof.
  intros H. rewrite <- (firstn_skipn k l) in H.
  exact (NoDup_app_remove_r _ _ H).
Qed.

(** A delivery that reaches the crediting loop adds to the rows of
    [credit_base] the credit rows of a first part of the [users] map, in
    the order of the map; no address appears on two of the rows added;
    and when the handler replies, the whole map has been credited. *)
Theorem credit_rows_in_map_order (unique_credit : bool) (rxData : string)
        (json : Notify) (db : DB) :
  job_exists (n_txid json) db = true ->
  completed (n_txid json) db = false ->
  (3 <= n_confirmations json)%Z ->
  exists k,
    (k <= length (credit_users json db))%nat
    /\ txs (after_notify unique_credit rxData json db)
       = (txs (credit_base json db)
          ++ map (credit_row json) (firstn k (credit_users json db)))%list
    /\ NoDup (map tx_blockhash
                  (map (credit_row json) (firstn k (credit_users json db))))
    /\ (outcome_of (notify unique_credit rxData json db)
        = Returned "Recieved NOTIFY" ->
        k = length (credit_users json db)).
Proof.
  intros Hj Hc H3.
  destruct (credits_prefix unique_credit json (credit_users json db)
              (credit_base json db)) as (k & Hk & Ht & _ & Hr).
  exists k. unfold after_notify.
  rewrite (notify_crediting unique_credit rxData json db Hj Hc H3).
  rewrite db_of_bind_ret. repeat split; [exact Hk | exact Ht | |].
  - rewrite map_map. simpl. rewrite <- firstn_map.
    apply firstn_nodup. unfold credit_users.
    apply users_from_nodup. constructor.
  - intros Ho. apply Hr. exact (outcome_of_bind_ret_inv _ _ _ Ho).
Qed.

Lemma credit_rows_in_map_order_witness :
  exists k,
    (k <= 2)%nat
    /\ map tx_blockhash
          (txs (after_notify false "" Cases.notify_repeated_address
                             Cases.db_two_users))
       = ("" :: firstn k ["A1"; "A2"])%list.
Proof.
  destruct (@credit_rows_in_map_order false "" Cases.notify_repeated_address
              Cases.db_two_users eq_refl eq_refl (Z.le_refl 3))
    as (k & Hk & Ht & _ & _).
  exists k. split; [exact Hk|]. rewrite Ht, map_app, !map_map.
  simpl. rewrite <- firstn_map. reflexivity.
Defined.

Lemma no_credit_key_taken (json : Notify) (kv : string * UserEntry) (db : DB) :
  credit_rows (n_txid json) db = [] ->
  existsb (same_credit_key (credit_row json kv)) (txs (credit_base json db))
  = false.
Proof.
  intros Hnone. unfold credit_base. simpl.
  rewrite !existsb_update by (intros; reflexivity).
  assert (E : existsb (same_credit_key (credit_row json kv)) (txs db) = false).
  { destruct (existsb (same_credit_key (credit_row json kv)) (txs db)) eqn:F;
      [|reflexivity].
    apply existsb_exists in F as (r & Hin & Hr).
    unfold same_credit_key in Hr. simpl in Hr.
    apply andb_true_iff in Hr as [Hr _]. apply andb_true_iff in Hr as [H1 H2].
    assert (In r (credit_rows (n_txid json) db)).
    { apply filter_In. split; [exact Hin|]. unfold is_credit_of, has_txid.
      rewrite String.eqb_sym, H1. rewrite Z.eqb_sym. exact H2. }
    rewrite Hnone in H. contradiction. }
  unfold upserted.
  destruct (existsb (has_txid (n_txid json)) (txs db)); simpl.
  - now rewrite existsb_update by (intros; reflexivity).
  - rewrite existsb_insert_row, E. unfold same_credit_key. simpl.
    now rewrite andb_false_r.
Qed.

(** A delivery that reaches the crediting loop replies, having inserted
    one credit row for every address of the [users] map, when every user
    of the map has a balance row and, if the unique index exists, the
    transaction has no credit row yet and no user owns two addresses of
    the map. *)
Theorem crediting_delivery_replies (unique_credit : bool) (rxData : string)
        (json : Notify) (db : DB) :
  job_exists (n_txid json) db = true ->
  completed (n_txid json) db = false ->
  (3 <= n_confirmations json)%Z ->
  all_have_balance (credit_users json db) db = true ->
  (unique_credit = true ->
   credit_rows (n_txid json) db = []
   /\ NoDup (map (fun kv => e_userId (snd kv)) (credit_users json db))) ->
  outcome_of (notify unique_credit rxData json db) = Returned "Recieved NOTIFY"
  /\ txs (after_notify unique_credit rxData json db)
     = (txs (credit_base json db)
        ++ map (credit_row json) (credit_users json db))%list.
Proof.
  intros Hj Hc H3 Hb Hu.
  destruct (@credits_all unique_credit json (credit_users json db)
              (credit_base json db)) as [Ho Ht].
  - unfold all_have_balance in *. unfold credit_base. simpl.
    now rewrite upserted_balances.
  - intros Hq. destruct (Hu Hq) as [Hnone Hnd]. split; [exact Hnd|].
    intros kv _. now apply no_credit_key_taken.
  - unfold after_notify.
    rewrite (notify_crediting unique_credit rxData json db Hj Hc H3).
    rewrite db_of_bind_ret. split; [|exact Ht].
    unfold bind, ret, outcome_of in *.
    destruct (forEach (credit unique_credit json) (credit_users json db)
                (credit_base json db)) as [d [[]|e]]; simpl in *;
      [reflexivity | discriminate].
Qed.

Lemma crediting_delivery_replies_witness :
  outcome_of (notify true "" Cases.notify_repeated_address Cases.db_two_users)
  = Returned "Recieved NOTIFY".
Proof.
  apply (@crediting_delivery_replies true "" Cases.notify_repeated_address
           Cases.db_two_users eq_refl eq_refl (Z.le_refl 3) eq_refl).
  intros _. split; [reflexivity|].
  repeat constructor; simpl; intuition discriminate.
Defined.

Lemma job_exists_promoted (t t' : string) (entries : list (string * UserEntry))
      (db : DB) :
  job_exists t (with_jobs (promote_all t' entries) db) = job_exists t db.
Proof.
  apply job_exists_names. simpl. revert db.
  induction entries as [|e entries IH]; intros db; simpl; [reflexivity|].
  specialize (IH (with_jobs (update_where (has_job t')
                  (set_job_processed (e_userId (snd e)))) db)).
  simpl in IH. rewrite IH. unfold update_where. rewrite map_map.
  apply map_ext. intros j. destruct (has_job t' j); reflexivity.
Qed.

(** When the handler promotes the job of a transaction, every job row
    of the transaction ends in state 3 with result ["okay"] and the
    user of the last attributed entry of [json.balances]; the crediting
    loop that follows writes no job. *)
Theorem job_promoted_to_last_user (unique_credit : bool) (rxData : string)
        (json : Notify) (db : DB) (entries : list (string * UserEntry))
        (last : string * UserEntry) :
  job_exists (n_txid json) db = true ->
  completed (n_txid json) db = false ->
  (3 <= n_confirmations json)%Z ->
  attributed (addresses db) (n_balances json) = (entries ++ [last])%list ->
  let db' := after_notify unique_credit rxData json db in
  jobs db' = update_where (has_job (n_txid json))
               (set_job_processed (e_userId (snd last))) (jobs db)
  /\ forall j, In j (jobs db') -> has_job (n_txid json) j = true ->
               job_state j = 3%Z
               /\ job_userId j = Some (e_userId (snd last))
               /\ job_result j = Some "okay".
Proof.
  intros Hj Hc H3 Ha db'.
  assert (E : jobs db' = update_where (has_job (n_txid json))
                           (set_job_processed (e_userId (snd last))) (jobs db)).
  { subst db'. unfold after_notify.
    rewrite (notify_crediting unique_credit rxData json db Hj Hc H3).
    rewrite db_of_bind_ret.
    destruct (credits_prefix unique_credit json (credit_users json db)
                (credit_base json db)) as (k & _ & _ & Hjobs & _).
    rewrite Hjobs. unfold credit_base. simpl.
    rewrite upserted_jobs, Ha. apply promote_all_last. }
  split; [exact E|].
  intros j Hin Hm. rewrite E in Hin.
  apply in_update_where in Hin as (j0 & _ & ->).
  destruct (has_job (n_txid json) j0) eqn:F; [repeat split|congruence].
Qed.

Lemma job_promoted_to_last_user_witness :
  map job_userId
      (jobs (after_notify false "" Scenario.notify_two_outputs
                          Cases.db_two_users))
  = [Some "U2"].
Proof.
  rewrite (proj1 (@job_promoted_to_last_user false ""
                    Scenario.notify_two_outputs Cases.db_two_users
                    [("A1", mkEntry "U1" "100")] ("A2", mkEntry "U2" "200")
                    eq_refl eq_refl (Z.le_refl 3) eq_refl)).
  reflexivity.
Defined.



End AttributionFacts.

(** ** The address the endpoint shows and the user a NOTIFY credits *)

Module EndpointAttribution.

Import Db Broker Attribution WalletAddressEndpoint.
Local Open Scope string_scope.

(** In a table where [address] is unique, the row that holds an address
    is the row [getOne] finds for it. *)
Lemma find_unique_address (table : list WalletAddress) (w : WalletAddress) :
  NoDup (map addr_address table) -> In w table ->
  find (has_address (addr_address w)) table = Some w.
Proof.
  induction table as [|x table IH]; intros Hnd Hin; [contradiction|].
  simpl in *. inversion Hnd as [|a l Hnotin Hnd']; subst.
  unfold has_address at 1.
  destruct (String.eqb_spec (addr_address x) (addr_address w)) as [E|N].
  - destruct Hin as [->|Hin]; [reflexivity|].
    exfalso. apply Hnotin. rewrite E. now apply in_map.
  - destruct Hin as [->|Hin]; [congruence|]. now apply IH.
Qed.

(** With [address] unique in [user_wallet_address], an address the
    endpoint returns for a user is attributed by the NOTIFY handler to
    that same user: a payment to it enters the [users] map under that
    address with that user. *)
Theorem shown_address_is_attributed (Users : list User)
        (table : list WalletAddress) (ps : Params) (m : User)
        (a balance : string) :
  NoDup (map addr_address table) ->
  handler Users table ps (Some m) = inr a ->
  a <> "" ->
  let target := match ps_userId ps with
                | Some i => i
                | None => user_id m
                end in
  attributed_entry table (mkBal a balance) = Some (a, mkEntry target balance).
Proof.
  intros Hnd Hh Ha target. unfold handler in Hh. fold target in Hh.
  destruct (find (has_id target) Users) as [u|] eqn:Fu; [|discriminate].
  apply find_some in Fu as [_ Hid]. unfold has_id in Hid.
  apply String.eqb_eq in Hid. rewrite Hid in Hh.
  destruct (find (owned_by target) table) as [w|] eqn:Fw;
    [|injection Hh as <-; congruence].
  injection Hh as <-.
  apply find_some in Fw as [Hin Ho]. unfold owned_by in Ho.
  destruct (addr_userId w) as [v|] eqn:Ev; [|discriminate].
  apply String.eqb_eq in Ho. subst v.
  unfold attributed_entry. simpl.
  rewrite (find_unique_address table w Hnd Hin), Ev. reflexivity.
Qed.

Lemma shown_address_is_attributed_witness :
  attributed_entry (addresses Cases.db_two_users) (mkBal "A2" "200")
  = Some ("A2", mkEntry "U2" "200").
Proof.
  apply (@shown_address_is_attributed [mkUser "U1"; mkUser "U2"]
           (addresses Cases.db_two_users) (mkParams (Some "U2") None None)
           (mkUser "U1") "A2" "200").
  - repeat constructor; simpl; intuition discriminate.
  - reflexivity.
  - discriminate.
Defined.

End EndpointAttribution.

(** ** HEARTBEAT on any table, and NOTIFY beside HEARTBEAT *)

Module IndependenceFacts.

Import JsNumber Db Broker Ledger Footprint Independence TableFacts MonadFacts
       FrameFacts.
Local Open Scope string_scope.

Lemma heartbeat_run (updatedAt_default : Z -> Z) (now : Z) (json : Heartbeat)
      (db : DB) :
  heartbeat updatedAt_default now json db
  = (with_statuses (heartbeat_statuses updatedAt_default now json) db,
     Returned "Recieved HEARTBEAT").
Proof.
  unfold heartbeat, bind, gets, modify, ret, heartbeat_statuses, with_statuses.
  simpl. destruct (existsb (has_type (h_coin json)) (statuses db)); reflexivity.
Qed.

(** Whatever the status table holds, a HEARTBEAT removes and reorders
    no row and changes no [type]; it adds one row exactly when the coin
    has none; and afterwards every row of the coin, however many there
    were, carries the columns of the message. *)
Theorem heartbeat_on_any_table (updatedAt_default : Z -> Z) (now : Z)
        (json : Heartbeat) (db : DB) :
  let rows := statuses db in
  let rows' := statuses (db_of (heartbeat updatedAt_default now json db)) in
  grows_from same_type rows rows'
  /\ length rows'
     = (length rows
        + if existsb (has_type (h_coin json)) rows then 0 else 1)%nat
  /\ forall r, In r rows' -> has_type (h_coin json) r = true -> carries json r.
Proof.
  intros rows rows'. subst rows'. rewrite heartbeat_run. unfold db_of. simpl.
  fold rows. unfold heartbeat_statuses.
  destruct (existsb (has_type (h_coin json)) rows) eqn:E.
  - split; [|split].
    + apply grows_update; [reflexivity|]. intros r. reflexivity.
    + unfold update_where. rewrite length_map. lia.
    + intros r Hin Hr. apply in_update_where in Hin as (r0 & _ & ->).
      destruct (has_type (h_coin json) r0) eqn:F.
      * unfold carries. simpl. auto 10.
      * congruence.
  - split; [|split].
    + apply grows_insert. reflexivity.
    + unfold insert_row. rewrite length_app. reflexivity.
    + intros r Hin Hr. apply CreditFacts.in_insert_row in Hin as [Hin | ->].
      * exfalso.
        assert (existsb (has_type (h_coin json)) rows = true)
          by (apply existsb_exists; eauto).
        congruence.
      * unfold carries. simpl. auto 10.
Qed.

(** *** Handlers that ignore the status table *)

Lemma ignores_ret {A : Type} (a : A) : ignores_statuses (ret a).
Proof. intros s db. reflexivity. Qed.

Lemma ignores_throw {A : Type} (e : error) : ignores_statuses (@throw A e).
Proof. intros s db. reflexivity. Qed.

Lemma ignores_gets {A : Type} (q : DB -> A) :
  (forall s db, q (with_statuses (fun _ => s) db) = q db) ->
  ignores_statuses (gets q).
Proof. intros Hq s db. unfold gets, db_of, outcome_of. simpl. now rewrite Hq. Qed.

Lemma ignores_modify (f : DB -> DB) :
  (forall s db, f (with_statuses (fun _ => s) db)
                = with_statuses (fun _ => s) (f db)) ->
  ignores_statuses (modify f).
Proof. intros Hf s db. unfold modify, db_of, outcome_of. simpl. now rewrite Hf. Qed.

Lemma ignores_bind {A B : Type} (m : M A) (k : A -> M B) :
  ignores_statuses m -> (forall a, ignores_statuses (k a)) ->
  ignores_statuses (bind m k).
Proof.
  intros Hm Hk s db. unfold bind. rewrite Hm.
  unfold db_of, outcome_of. destruct (m db) as [d [a|e]]; simpl.
  - rewrite Hk. reflexivity.
  - reflexivity.
Qed.

Lemma ignores_forEach {A : Type} (body : A -> M unit) (l : list A) :
  (forall x, ignores_statuses (body x)) -> ignores_statuses (forEach body l).
Proof.
  intros Hb. induction l as [|x l IH]; simpl.
  - apply ignores_ret.
  - apply ignores_bind; [apply Hb | intros _; exact IH].
Qed.

Section Notify.

Variable unique_credit : bool.
Variables (rxData : string) (json : Notify).

Lemma insert_tx_ignores (r : WalletTx) :
  ignores_statuses (insert_tx unique_credit r).
Proof.
  intros s db. unfold insert_tx. simpl.
  destruct (unique_credit && existsb (same_credit_key r) (txs db)); reflexivity.
Qed.

Lemma create_job_ignores (jobe : bool) :
  ignores_statuses (create_job rxData json jobe).
Proof.
  unfold create_job. destruct jobe; simpl.
  - apply ignores_ret.
  - apply ignores_bind; [apply ignores_throw|].
    intros tx. destruct (negb (tx_complete tx) && _).
    + apply ignores_bind; [|intros _; apply ignores_throw].
      apply ignores_modify. reflexivity.
    + apply ignores_ret.
Qed.

Lemma upsert_tx_ignores (txe : bool) :
  ignores_statuses (upsert_tx unique_credit json txe).
Proof.
  unfold upsert_tx. destruct txe; simpl.
  - apply ignores_modify. reflexivity.
  - apply insert_tx_ignores.
Qed.

Lemma attribute_ignores (jobe : bool) (bals : list BalanceEntry) :
  forall users, ignores_statuses (attribute rxData json jobe bals users).
Proof.
  induction bals as [|bal rest IH]; intros users; simpl.
  - apply ignores_ret.
  - apply ignores_bind; [apply ignores_gets; reflexivity|].
    intros [a|]; [|apply IH].
    destruct (addr_userId a) as [uid|]; [|apply IH].
    apply ignores_bind; [|intros _; apply IH].
    destruct jobe; simpl; apply ignores_modify; reflexivity.
Qed.

Lemma credit_ignores (kv : string * UserEntry) :
  ignores_statuses (credit unique_credit json kv).
Proof.
  unfold credit. apply ignores_bind; [apply insert_tx_ignores|].
  intros _. apply ignores_bind; [apply ignores_gets; reflexivity|].
  intros [row|]; [|apply ignores_throw].
  apply ignores_modify. reflexivity.
Qed.

Lemma check_job_ignores (jobe : bool) (tx : option WalletTx) :
  ignores_statuses (check_job unique_credit rxData json jobe tx).
Proof.
  unfold check_job. destruct tx as [t|]; [|apply ignores_ret].
  destruct (negb (tx_complete t) && _); [|apply ignores_ret].
  apply ignores_bind; [apply attribute_ignores|].
  intros users. apply ignores_bind; [apply ignores_modify; reflexivity|].
  intros _. apply ignores_forEach. apply credit_ignores.
Qed.

Lemma notify_ignores : ignores_statuses (notify unique_credit rxData json).
Proof.
  unfold notify.
  apply ignores_bind; [apply ignores_gets; reflexivity|]. intros jobe.
  apply ignores_bind; [apply ignores_gets; reflexivity|]. intros txe.
  apply ignores_bind; [apply create_job_ignores|]. intros jobe'.
  apply ignores_bind; [apply upsert_tx_ignores|]. intros _.
  apply ignores_bind; [apply ignores_gets; reflexivity|]. intros tx.
  apply ignores_bind; [apply check_job_ignores|]. intros _.
  apply ignores_ret.
Qed.

End Notify.

(** A NOTIFY and a HEARTBEAT handled one after the other leave the same
    database and give the same two outcomes in either order. *)
Theorem notify_heartbeat_commute (unique_credit : bool)
        (updatedAt_default : Z -> Z) (rxData : string) (json : Notify)
        (now : Z) (hb : Heartbeat) (db : DB) :
  let beat d := heartbeat updatedAt_default now hb d in
  let note d := notify unique_credit rxData json d in
  db_of (note (db_of (beat db))) = db_of (beat (db_of (note db)))
  /\ outcome_of (note (db_of (beat db))) = outcome_of (note db)
  /\ outcome_of (beat (db_of (note db))) = outcome_of (beat db).
Proof.
  intros beat note.
  set (hs := heartbeat_statuses updatedAt_default now hb (statuses db)).
  assert (B1 : db_of (beat db) = with_statuses (fun _ => hs) db)
    by (subst beat; cbv beta; rewrite heartbeat_run; reflexivity).
  assert (N1 : note (with_statuses (fun _ => hs) db)
               = (with_statuses (fun _ => hs) (db_of (note db)),
                  outcome_of (note db)))
    by (apply notify_ignores).
  assert (S : statuses (db_of (note db)) = statuses db).
  { destruct (after_notify_frame unique_credit rxData json db)
      as (_ & _ & _ & _ & S). exact S. }
  assert (B2 : beat (db_of (note db))
               = (with_statuses (fun _ => hs) (db_of (note db)),
                  Returned "Recieved HEARTBEAT")).
  { subst beat. cbv beta. rewrite heartbeat_run. f_equal.
    unfold with_statuses. simpl. subst hs. now rewrite S. }
  rewrite B1, N1, B2. subst beat. cbv beta. rewrite heartbeat_run.
  repeat split.
Qed.

End IndependenceFacts.

(** ** [getNewAddress]: when and how the callback is called *)

Module NewAddressFacts.

Import NewAddress.
Local Open Scope string_scope.

Section Reply.

Variable parse : string -> option Json.
Variable cb : Callback.
Variable rxData : string.

Lemma try_block_calls (json : Json) :
  (length (fst (try_block cb json)) <= 1)%nat
  /\ forallb well_formed (fst (try_block cb json)) = true
  /\ (snd (try_block cb json) = None -> length (fst (try_block cb json)) = 1%nat)
  /\ (forall c, In c (fst (try_block cb json)) -> cb c = snd (try_block cb json)).
Proof.
  unfold try_block.
  destruct json; simpl; try destruct (is_true _); simpl;
    (split; [lia|]; split; [reflexivity|]; split;
     [intros H; try discriminate H; reflexivity
     |intros c Hc; simpl in Hc; destruct Hc as [<-|[]] || destruct Hc;
      reflexivity]).
Qed.

Lemma catch_block_well_formed (e : Exn) :
  well_formed (catch_block rxData e) = true.
Proof. unfold catch_block. destruct (is_syntax e); reflexivity. Qed.

(** On a transport error the caller's callback is not called at all:
    the error is logged and nothing else happens.  Otherwise nothing
    is logged and the callback is called once, or twice when its first
    call throws; every call passes either an error and [null], or no
    error and data; and an exception leaves the handler only when the
    last call of the callback throws it. *)
Theorem callback_calls (e : option Exn) :
  let run := reply parse cb e rxData in
  (forall err, e = Some err ->
     calls run = [] /\ logged run = [err] /\ escaped run = None)
  /\ (e = None ->
      logged run = []
      /\ (1 <= length (calls run) <= 2)%nat
      /\ forallb well_formed (calls run) = true
      /\ ((forall c, cb c = None) -> length (calls run) = 1%nat)
      /\ (forall x, escaped run = Some x ->
            exists c, last (calls run) c = c /\ In c (calls run)
                      /\ cb c = Some x)).
Proof.
  intros run. split.
  - intros err ->. subst run. simpl. auto.
  - intros ->. subst run. unfold reply.
    destruct (parse rxData) as [json|].
    + destruct (try_block_calls json) as (Hlen & Hwf & Hone & Hcb).
      destruct (try_block cb json) as [made [thrown|]] eqn:T; simpl in *.
      * split; [reflexivity|]. rewrite length_app. simpl.
        split; [lia|]. split; [|split].
        -- rewrite forallb_app, Hwf. simpl.
           now rewrite catch_block_well_formed.
        -- intros Hquiet. destruct made as [|c made]; [reflexivity|].
           exfalso. specialize (Hcb c (or_introl eq_refl)).
           rewrite Hquiet in Hcb. discriminate.
        -- intros x Hx. exists (catch_block rxData thrown).
           rewrite last_last. split; [reflexivity|].
           split; [apply in_or_app; simpl; auto | exact Hx].
      * split; [reflexivity|]. rewrite (Hone eq_refl).
        split; [lia|]. split; [exact Hwf|]. split; [reflexivity|].
        discriminate.
    + simpl. repeat split; auto.
      intros x Hx. exists (mkCall None (DataRaw rxData)). simpl. auto.
Qed.

End Reply.

Lemma callback_calls_witness :
  calls (reply (fun _ => Some JNull) (fun _ => None)
               (Some (TransportError "closed")) "null")
  = []
  /\ length (calls (reply (fun _ => Some JNull) (fun _ => None) None "null"))
     = 1%nat.
Proof.
  split.
  - apply (proj1 (callback_calls (fun _ => Some JNull) (fun _ => None) "null"
                    (Some (TransportError "closed")))
             (TransportError "closed") eq_refl).
  - apply (proj2 (callback_calls (fun _ => Some JNull) (fun _ => None) "null"
                    None) eq_refl).
    reflexivity.
Defined.

End NewAddressFacts.

(** ** The configuration loader *)

Module ConfigFacts.

Import Config AmountFacts.
Local Open Scope string_scope.

(** Converted options always carry [family], [db], [prefix], [password]
    and [keyPrefix]; [keyPrefix] is the prefix followed by [':'], and
    [password] is [pass].  Converting again, for whatever host, changes
    nothing. *)
Theorem convertRedisOptions_stable {Others : Type}
        (options : RedisOptions Others) (host host' : string) :
  let c := convertRedisOptions options host in
  (exists p, r_prefix c = Some p /\ r_keyPrefix c = Some (p ++ ":")
             /\ (r_prefix options = None -> p = host)
             /\ (forall q, r_prefix options = Some q -> p = q))
  /\ r_password c = Some (r_pass options)
  /\ convertRedisOptions c host' = c.
Proof.
  intros c. subst c. unfold convertRedisOptions. simpl. split; [|split].
  - exists (nullish (r_prefix options) host). repeat split.
    + intros H. now rewrite H.
    + intros q H. now rewrite H.
  - reflexivity.
  - reflexivity.
Qed.

Lemma get_last (s : string) (c : ascii) :
  String.get (String.length s) (s ++ String c "") = Some c.
Proof. induction s as [|x s IH]; simpl; [reflexivity | exact IH]. Qed.

Lemma substring_prefix (s t : string) :
  String.substring 0 (String.length s) (s ++ t) = s.
Proof.
  induction s as [|x s IH]; simpl.
  - now destruct t.
  - now rewrite IH.
Qed.

Lemma ends_with_slash_app (s : string) : ends_with_slash (s ++ "/") = true.
Proof.
  unfold ends_with_slash. rewrite length_append. simpl.
  rewrite Nat.add_1_r. now rewrite (get_last s "/").
Qed.

Lemma ends_with_slash_inv (s : string) :
  ends_with_slash s = true -> exists t, s = t ++ "/".
Proof.
  unfold ends_with_slash.
  induction s as [|x s IH]; simpl; [discriminate|].
  destruct s as [|y s'].
  - simpl. destruct (Ascii.eqb_spec x "/"); [|discriminate].
    intros _. exists "". now subst.
  - intros H. simpl in IH. destruct (IH H) as [t ->].
    exists (String x t). reflexivity.
Qed.

Lemma drop_last_slash (s : string) :
  JsString.substring (s ++ "/") 0 (JsString.len (s ++ "/") - 1) = s.
Proof.
  unfold JsString.len. rewrite length_append. simpl.
  replace (Z.of_nat (String.length s + 1) - 1)%Z
    with (Z.of_nat (String.length s)) by lia.
  change 0%Z with (Z.of_nat 0).
  rewrite js_substring_inrange by (rewrite length_append; simpl; lia).
  rewrite Nat.sub_0_r. apply substring_prefix.
Qed.

Lemma without_slash_app (s : string) :
  without_slash (Some (s ++ "/")) = Some s.
Proof.
  unfold without_slash.
  destruct (s ++ "/") as [|c r] eqn:E.
  - destruct s; discriminate.
  - rewrite <- E, ends_with_slash_app, drop_last_slash. reflexivity.
Qed.

(** The expression removes one trailing ['/'] and no more: a value that
    ends with ['/'] loses exactly that character, any other value that
    is not empty is kept, and an absent or empty value gives [null]. *)
Theorem without_slash_spec (x : option string) (s : string) :
  without_slash (Some (s ++ "/")) = Some s
  /\ (ends_with_slash s = false -> s <> "" -> without_slash (Some s) = Some s)
  /\ (without_slash x = None <-> x = None \/ x = Some "").
Proof.
  split; [|split].
  - apply without_slash_app.
  - intros He Hs. unfold without_slash.
    destruct s as [|c r]; [congruence|]. now rewrite He.
  - unfold without_slash. destruct x as [[|c r]|]; split; auto;
      try discriminate; intros [H|H]; discriminate.
Qed.

Lemma without_slash_spec_witness :
  without_slash (Some "https://proxy.example") = Some "https://proxy.example".
Proof.
  apply (proj1 (proj2 (without_slash_spec None "https://proxy.example"))).
  - reflexivity.
  - discriminate.
Defined.

(** [externalMediaProxyEnabled] is true exactly when [mediaProxy] is not
    the internal proxy; so an external proxy configured as the internal
    one, with or without a ['/'] at its end, is not enabled. *)
Theorem media_proxy_enabled (configured : option string) (scheme host : string) :
  externalMediaProxyEnabled configured scheme host
  = negb (String.eqb (mediaProxy configured scheme host)
                     (internalMediaProxy scheme host))
  /\ externalMediaProxyEnabled
       (Some (internalMediaProxy scheme host ++ "/")) scheme host = false
  /\ externalMediaProxyEnabled None scheme host = false.
Proof.
  split; [|split].
  - unfold externalMediaProxyEnabled, mediaProxy.
    destruct (without_slash configured) as [e|]; simpl; [reflexivity|].
    now rewrite String.eqb_refl.
  - unfold externalMediaProxyEnabled.
    rewrite (without_slash_app (internalMediaProxy scheme host)).
    now rewrite String.eqb_refl.
  - reflexivity.
Qed.

End ConfigFacts.
